(** * Hand-TeX, [handtex/gui_utils.py]: theme palette loading

    A shallow embedding of [clamp_8bit], [apply_color_effect] and
    [load_color_palette], with the Python built-ins and the Qt colour
    classes they rely on, followed by the properties of the palette
    loader.

    Conventions.
    - A Python [str] is a [string]; each character stands for the code
      point of the same number (code points below 256).
    - A Python [int] is a [Z]; a Python [float] is an IEEE 754 binary64
      number, a [spec_float] operated on at precision 53 and maximal
      exponent 1024.
    - A raised exception is the [Raise] outcome of the [result] monad. *)

From Stdlib Require Import ZArith List String Ascii Bool Lia QArith Reals Lra.
From Stdlib Require Import Floats.SpecFloat.
From stdpp Require Import gmap strings.

Local Open Scope Z_scope.
Local Open Scope string_scope.

(** ** Exceptions *)

Inductive exn : Type :=
| ValueError (what : string)
| OverflowError (what : string).

Inductive result (A : Type) : Type :=
| Ok (a : A)
| Raise (e : exn).

Arguments Ok {A} a.
Arguments Raise {A} e.

#[global] Instance result_ret : MRet result := fun A a => Ok a.

#[global] Instance result_bind : MBind result := fun A B k m =>
  match m with
  | Ok a => k a
  | Raise e => Raise e
  end.

Definition is_ok {A : Type} (m : result A) : bool :=
  match m with Ok _ => true | Raise _ => false end.

(** ** Python strings *)

Module Py.

(** [str.isspace] on one character: the code points below 256 that
    Python counts as white space. *)
Definition isspace (c : ascii) : bool :=
  let n := N_of_ascii c in
  ((9 <=? n) && (n <=? 13) || (28 <=? n) && (n <=? 32)
   || (n =? 133) || (n =? 160))%N.

Fixpoint lstrip (s : string) : string :=
  match s with
  | EmptyString => EmptyString
  | String c s' => if isspace c then lstrip s' else s
  end.

Fixpoint rstrip (s : string) : string :=
  match s with
  | EmptyString => EmptyString
  | String c s' =>
      match rstrip s' with
      | EmptyString => if isspace c then EmptyString else String c EmptyString
      | t => String c t
      end
  end.

(** [s.strip()] *)
Definition strip (s : string) : string := rstrip (lstrip s).

(** [c in s] for a one-character [c] *)
Fixpoint contains (c : ascii) (s : string) : bool :=
  match s with
  | EmptyString => false
  | String d s' => Ascii.eqb d c || contains c s'
  end.

(** [s.split(sep)] for a one-character separator *)
Fixpoint split (sep : ascii) (s : string) : list string :=
  match s with
  | EmptyString => [EmptyString]
  | String c s' =>
      if Ascii.eqb c sep then EmptyString :: split sep s'
      else match split sep s' with
           | h :: t => String c h :: t
           | [] => [String c EmptyString]
           end
  end.

(** [s.split(sep, 1)] for a one-character separator *)
Fixpoint split_1 (sep : ascii) (s : string) : list string :=
  match s with
  | EmptyString => [EmptyString]
  | String c s' =>
      if Ascii.eqb c sep then [EmptyString; s']
      else match split_1 sep s' with
           | h :: t => String c h :: t
           | [] => [String c EmptyString]
           end
  end.

(** [s.startswith(c)] and [s.endswith(c)] for a one-character [c] *)
Definition startswith (c : ascii) (s : string) : bool :=
  match s with
  | String d _ => Ascii.eqb d c
  | EmptyString => false
  end.

Fixpoint endswith (c : ascii) (s : string) : bool :=
  match s with
  | EmptyString => false
  | String d EmptyString => Ascii.eqb d c
  | String _ s' => endswith c s'
  end.

Fixpoint drop_last (s : string) : string :=
  match s with
  | EmptyString => EmptyString
  | String _ EmptyString => EmptyString
  | String c s' => String c (drop_last s')
  end.

(** [s[1:-1]] *)
Definition slice_1_m1 (s : string) : string :=
  match s with
  | EmptyString => EmptyString
  | String _ s' => drop_last s'
  end.

(** *** [int(s)] in base 10 *)

Definition digit_value (c : ascii) : option Z :=
  let n := N_of_ascii c in
  if ((48 <=? n) && (n <=? 57))%N then Some (Z.of_N n - 48) else None.

(** The digits of a [digitpart]: digits separated by single underscores.
    [acc] is the value read so far, [n] the number of digits read, and
    [after_digit] tells whether the previous character was a digit.
    Returns the value, the number of digits and the rest of the text. *)
Fixpoint digitpart (s : string) (acc : Z) (n : Z) (after_digit : bool)
  : option (Z * Z * string) :=
  match s with
  | EmptyString => if after_digit then Some (acc, n, EmptyString) else None
  | String c s' =>
      match digit_value c with
      | Some d => digitpart s' (10 * acc + d) (n + 1) true
      | None =>
          if Ascii.eqb c "_" then
            (if after_digit then
               match s' with
               | String c' _ =>
                   match digit_value c' with
                   | Some _ => digitpart s' acc n false
                   | None => None
                   end
               | EmptyString => None
               end
             else None)
          else if after_digit then Some (acc, n, s) else None
      end
  end.

(** An optional sign: [true] for a minus. *)
Definition sign (s : string) : bool * string :=
  match s with
  | String "-" s' => (true, s')
  | String "+" s' => (false, s')
  | _ => (false, s)
  end.

(** The white space that [int] and [float] skip around a number. It is
    not that of [str.strip]: the conversion replaces the white space
    from code point 128 on by spaces, and then skips what C's [isspace]
    accepts, so that the separators 28 to 31 are not skipped. *)
Definition isspace_number (c : ascii) : bool :=
  let n := N_of_ascii c in
  ((9 <=? n) && (n <=? 13) || (n =? 32) || (n =? 133) || (n =? 160))%N.

Fixpoint lstrip_number (s : string) : string :=
  match s with
  | EmptyString => EmptyString
  | String c s' => if isspace_number c then lstrip_number s' else s
  end.

Fixpoint rstrip_number (s : string) : string :=
  match s with
  | EmptyString => EmptyString
  | String c s' =>
      match rstrip_number s' with
      | EmptyString =>
          if isspace_number c then EmptyString else String c EmptyString
      | t => String c t
      end
  end.

Definition strip_number (s : string) : string :=
  rstrip_number (lstrip_number s).

(** [sys.get_int_max_str_digits()], as Python starts with. *)
Definition max_str_digits : Z := 4300.

(** [int(s)]: white space around, an optional sign, then decimal digits
    with single underscores between them, at most [max_str_digits]
    digits, leading zeros counted. *)
Definition int (s : string) : result Z :=
  let (neg, body) := sign (strip_number s) in
  match digitpart body 0 0 false with
  | Some (v, n, rest) =>
      if Z.ltb max_str_digits n then
        Raise (ValueError "Exceeds the limit (4300 digits) for integer string conversion")
      else
        match rest with
        | EmptyString => Ok (if neg then - v else v)
        | _ => Raise (ValueError "invalid literal for int() with base 10")
        end
  | None => Raise (ValueError "invalid literal for int() with base 10")
  end.

(** *** [float] *)

Definition float : Type := spec_float.

Definition prec : Z := 53.
Definition emax : Z := 1024.

Definition fadd : float -> float -> float := SFadd prec emax.
Definition fsub : float -> float -> float := SFsub prec emax.
Definition fmul : float -> float -> float := SFmul prec emax.

(** The conversion of an [int] operand of a mixed [int]/[float]
    operation: correctly rounded, and exact below [2^53], which covers
    every integer this program converts. *)
Definition float_of_int (z : Z) : float := binary_normalize prec emax z 0 false.

(** [int(x)] for a float [x]: truncation toward zero. *)
Definition int_of_float (x : float) : result Z :=
  match x with
  | S754_nan => Raise (ValueError "cannot convert float NaN to integer")
  | S754_infinity _ =>
      Raise (OverflowError "cannot convert float infinity to integer")
  | S754_zero _ => Ok 0
  | S754_finite s m e =>
      let a := Z.shiftl (Zpos m) e in Ok (if s then - a else a)
  end.

(** The binary64 number nearest to [d * 10^e] (ties to even), for
    [0 <= d]. A negative exponent divides: the quotient is taken with
    more than 64 bits and a sticky last bit, then rounded once. *)
Definition float_of_decimal (neg : bool) (d e : Z) : float :=
  if Z.eqb d 0 then S754_zero neg
  else if Z.leb 0 e then
    binary_normalize prec emax (cond_Zopp neg (d * 10 ^ e)) 0 neg
  else
    let den := 10 ^ (- e) in
    let k := Z.log2 den + 65 in
    let q := (d * 2 ^ k) / den in
    let sticky := if Z.eqb ((d * 2 ^ k) mod den) 0 then 0 else 1 in
    binary_normalize prec emax (cond_Zopp neg (2 * q + sticky)) (- (k + 1)) neg.

Definition lower (c : ascii) : ascii :=
  let n := N_of_ascii c in
  if ((65 <=? n) && (n <=? 90))%N then ascii_of_N (n + 32) else c.

Fixpoint lower_string (s : string) : string :=
  match s with
  | EmptyString => EmptyString
  | String c s' => String (lower c) (lower_string s')
  end.

(** The fraction of a float literal, after the point: an optional
    [digitpart]. Returns its value, its number of digits and the rest. *)
Definition fraction (s : string) : option (Z * Z * string) :=
  match s with
  | String c _ =>
      match digit_value c with
      | Some _ => digitpart s 0 0 false
      | None => Some (0, 0, s)
      end
  | EmptyString => Some (0, 0, EmptyString)
  end.

(** The exponent of a float literal: nothing, or [e], an optional sign
    and a [digitpart], up to the end of the text. *)
Definition exponent (s : string) : option Z :=
  match s with
  | EmptyString => Some 0
  | String c s' =>
      if Ascii.eqb (lower c) "e" then
        let (neg, body) := sign s' in
        match digitpart body 0 0 false with
        | Some (v, _, EmptyString) => Some (if neg then - v else v)
        | _ => None
        end
      else None
  end.

(** A [floatnumber]: the pair [(d, e)] stands for [d * 10^e]. *)
Definition floatnumber (s : string) : option (Z * Z) :=
  match s with
  | String "." s' =>
      match digitpart s' 0 0 false with
      | Some (fv, fn, rest) =>
          match exponent rest with
          | Some ex => Some (fv, ex - fn)
          | None => None
          end
      | None => None
      end
  | _ =>
      match digitpart s 0 0 false with
      | Some (iv, _, String "." rest) =>
          match fraction rest with
          | Some (fv, fn, rest') =>
              match exponent rest' with
              | Some ex => Some (iv * 10 ^ fn + fv, ex - fn)
              | None => None
              end
          | None => None
          end
      | Some (iv, _, rest) =>
          match exponent rest with
          | Some ex => Some (iv, ex)
          | None => None
          end
      | None => None
      end
  end.

(** [float(s)] for a string [s]: white space around, an optional sign,
    then [inf], [infinity] or [nan] in any case, or a decimal literal,
    rounded to the nearest binary64 number. *)
Definition float_of_str (s : string) : result float :=
  let (neg, body) := sign (strip_number s) in
  let l := lower_string body in
  if String.eqb l "inf" || String.eqb l "infinity" then Ok (S754_infinity neg)
  else if String.eqb l "nan" then Ok S754_nan
  else match floatnumber body with
       | Some (d, e) => Ok (float_of_decimal neg d e)
       | None => Raise (ValueError "could not convert string to float")
       end.

End Py.

(** ** The Qt classes used by the loader *)

Module Qt.

(** A [QColor] as the loader observes it: whether it is valid, and its
    three channels. An invalid colour reads as 0 on every channel. *)
Inductive QColor : Type :=
| Invalid
| Rgb (r g b : Z).

Definition isValid (c : QColor) : bool :=
  match c with Invalid => false | Rgb _ _ _ => true end.

Definition red (c : QColor) : Z :=
  match c with Invalid => 0 | Rgb r _ _ => r end.

Definition green (c : QColor) : Z :=
  match c with Invalid => 0 | Rgb _ g _ => g end.

Definition blue (c : QColor) : Z :=
  match c with Invalid => 0 | Rgb _ _ b => b end.

Definition in_8bit (z : Z) : bool := Z.leb 0 z && Z.leb z 255.

Definition in_c_int (z : Z) : bool := Z.leb (- 2 ^ 31) z && Z.ltb z (2 ^ 31).

(** The C++ constructor [QColor(int r, int g, int b)] and
    [QColor::setRgb]: a channel out of range leaves the colour invalid. *)
Definition QColor_rgb (r g b : Z) : QColor :=
  if in_8bit r && in_8bit g && in_8bit b then Rgb r g b else Invalid.

(** The binding of that constructor: each Python [int] is first
    converted to a C [int]. *)
Definition QColor_new (r g b : Z) : result QColor :=
  if in_c_int r && in_c_int g && in_c_int b then Ok (QColor_rgb r g b)
  else Raise (OverflowError "Python int too large to convert to C int").

(** [QPalette.Normal] is another name of [QPalette.Active]. *)
Inductive ColorGroup : Type := Normal | Disabled | Inactive.

Inductive ColorRole : Type :=
| WindowText | Button | Light | Midlight | Dark | Mid | Text | BrightText
| ButtonText | Base | Window | Shadow | Highlight | HighlightedText
| Link | LinkVisited | AlternateBase | NoRole | ToolTipBase | ToolTipText
| PlaceholderText | Accent.

#[global] Instance ColorGroup_eq_dec : EqDecision ColorGroup.
Proof. solve_decision. Defined.

#[global] Instance ColorRole_eq_dec : EqDecision ColorRole.
Proof. solve_decision. Defined.

(** A [QPalette]: one colour per group and role. *)
Definition QPalette : Type := ColorGroup -> ColorRole -> QColor.

(** [palette.color(group, role)] *)
Definition color (p : QPalette) (g : ColorGroup) (r : ColorRole) : QColor := p g r.

(** [palette.color(role)]: the colour of the current group, which is
    [Normal] for a palette whose current group was never changed. *)
Definition color_current (p : QPalette) (r : ColorRole) : QColor := p Normal r.

(** [palette.setColor(group, role, c)] *)
Definition setColor (p : QPalette) (g : ColorGroup) (r : ColorRole) (c : QColor)
  : QPalette :=
  fun g' r' => if decide (g' = g /\ r' = r) then c else p g' r'.

(** [palette.setColor(role, c)]: the role is set in every group. *)
Definition setColor_all (p : QPalette) (r : ColorRole) (c : QColor) : QPalette :=
  fun g' r' => if decide (r' = r) then c else p g' r'.

End Qt.

Import Qt.

(** ** [handtex/gui_utils.py] *)

(** Mapping between KDE color keys and QPalette roles *)
Definition section_role_mapping : gmap string (gmap string ColorRole) :=
  list_to_map
    [ ("Colors:Button",
       list_to_map [ ("BackgroundNormal", Button);
                     ("ForegroundNormal", ButtonText);
                     ("ForegroundActive", BrightText) ]);
      ("Colors:View",
       list_to_map [ ("BackgroundNormal", Base);
                     ("BackgroundAlternate", AlternateBase);
                     ("ForegroundNormal", Text);
                     ("ForegroundLink", Link);
                     ("ForegroundVisited", LinkVisited);
                     ("ForegroundInactive", PlaceholderText) ]);
      ("Colors:Selection",
       list_to_map [ ("BackgroundNormal", Highlight);
                     ("ForegroundNormal", HighlightedText) ]);
      ("Colors:Tooltip",
       list_to_map [ ("BackgroundNormal", ToolTipBase);
                     ("ForegroundNormal", ToolTipText) ]);
      ("Colors:Window",
       list_to_map [ ("BackgroundNormal", Window);
                     ("ForegroundNormal", WindowText) ]) ].

(** Clamp a value to the 0-255 range. *)
Definition clamp_8bit (value : Z) : Z := Z.max 0 (Z.min value 255).

(** One channel of [apply_color_effect]:
    [clamp_8bit(int(s * (1 - contrast_amount) + e * contrast_amount))]. *)
Definition effect_value (s e : Z) (contrast_amount : Py.float) : Py.float :=
  Py.fadd (Py.fmul (Py.float_of_int s)
                   (Py.fsub (Py.float_of_int 1) contrast_amount))
          (Py.fmul (Py.float_of_int e) contrast_amount).

Definition effect_channel (s e : Z) (contrast_amount : Py.float) : result Z :=
  v ← Py.int_of_float (effect_value s e contrast_amount);
  mret (clamp_8bit v).

(** Apply a color effect to a source color. *)
Definition apply_color_effect (source effect_base : QColor)
    (contrast_amount : Py.float) : result QColor :=
  r ← effect_channel (red source) (red effect_base) contrast_amount;
  g ← effect_channel (green source) (green effect_base) contrast_amount;
  b ← effect_channel (blue source) (blue effect_base) contrast_amount;
  QColor_new r g b.

(** *** Loops over the lines of the theme file *)

(** How the body of a [for] loop ends: it goes on to the next item, by
    reaching its end or a [continue], or it leaves the loop by [break]. *)
Inductive flow (S : Type) : Type :=
| Continue (s : S)
| Break (s : S).

Arguments Continue {S} s.
Arguments Break {S} s.

(** [for item in items: body], on the variables [s]. *)
Fixpoint for_each {S A : Type} (body : S -> A -> result (flow S))
    (items : list A) (s : S) : result S :=
  match items with
  | [] => Ok s
  | item :: rest =>
      match body s item with
      | Ok (Continue s') => for_each body rest s'
      | Ok (Break s') => Ok s'
      | Raise e => Raise e
      end
  end.

(** The local variables of [load_color_palette]. *)
Record locals : Type := Locals {
  palette : QPalette;
  disabled_color : QColor;
  disabled_contrast_amount : Py.float;
  in_disabled_section : bool;
  section : option string
}.

Definition set_palette (p : QPalette) (st : locals) : locals :=
  Locals p (disabled_color st) (disabled_contrast_amount st)
         (in_disabled_section st) (section st).

Definition set_disabled_color (c : QColor) (st : locals) : locals :=
  Locals (palette st) c (disabled_contrast_amount st)
         (in_disabled_section st) (section st).

Definition set_disabled_contrast_amount (a : Py.float) (st : locals) : locals :=
  Locals (palette st) (disabled_color st) a
         (in_disabled_section st) (section st).

Definition set_in_disabled_section (b : bool) (st : locals) : locals :=
  Locals (palette st) (disabled_color st) (disabled_contrast_amount st)
         b (section st).

Definition set_section (s : option string) (st : locals) : locals :=
  Locals (palette st) (disabled_color st) (disabled_contrast_amount st)
         (in_disabled_section st) s.

(** [key, value = map(str.strip, line.split("=", 1))] *)
Definition key_value (line : string) : result (string * string) :=
  match map Py.strip (Py.split_1 "=" line) with
  | [key; value] => Ok (key, value)
  | _ => Raise (ValueError "wrong number of values to unpack")
  end.

(** [r, g, b = map(int, value.split(","))]: the items are converted one
    at a time, as the unpacking asks for them; it asks for a fourth one
    to find out that there are too many. *)
Definition unpack_rgb (value : string) : result (Z * Z * Z) :=
  match Py.split "," value with
  | [] => Raise (ValueError "not enough values to unpack")
  | s1 :: rest1 =>
      r ← Py.int s1;
      match rest1 with
      | [] => Raise (ValueError "not enough values to unpack")
      | s2 :: rest2 =>
          g ← Py.int s2;
          match rest2 with
          | [] => Raise (ValueError "not enough values to unpack")
          | s3 :: rest3 =>
              b ← Py.int s3;
              match rest3 with
              | [] => Ok (r, g, b)
              | s4 :: _ =>
                  _ ← Py.int s4;
                  Raise (ValueError "too many values to unpack")
              end
          end
      end
  end.

Definition disabled_header : string := "[ColorEffects:Disabled]".

(** First loop, a [key=value] line of the disabled section. *)
Definition disabled_assign (st : locals) (key value : string)
  : result (flow locals) :=
  if String.eqb key "Color" then
    '(r, g, b) ← unpack_rgb value;
    c ← QColor_new r g b;
    Ok (Continue (set_disabled_color c st))
  else if String.eqb key "ContrastAmount" then
    a ← Py.float_of_str value;
    Ok (Continue (set_disabled_contrast_amount a st))
  else Ok (Continue st).

(** The body of the first loop: find the disabled color parameters. *)
Definition disabled_line (st : locals) (line : string) : result (flow locals) :=
  let line := Py.strip line in
  if String.eqb line disabled_header then
    Ok (Continue (set_in_disabled_section true st))
  else if negb (in_disabled_section st) then Ok (Continue st)
  else if Py.startswith "[" line then
    Ok (Break (set_in_disabled_section false st))
  else if negb (Py.contains "=" line) then Ok (Continue st)
  else
    (* Ok, now we're in the disabled section. *)
    '(key, value) ← key_value line;
    disabled_assign st key value.

(** [section_role_mapping.get(section, {}).get(key, None)] *)
Definition role_of (section : option string) (key : string) : option ColorRole :=
  default ∅ (section ≫= (section_role_mapping !!.)) !! key.

(** Second loop, a [key=value] line. *)
Definition role_assign (st : locals) (key value : string)
  : result (flow locals) :=
  match role_of (section st) key with
  | Some qt_color_role =>
      '(r, g, b) ← unpack_rgb value;
      c ← QColor_new r g b;
      let st := set_palette (setColor (palette st) Normal qt_color_role c) st in
      c ← QColor_new r g b;
      let st := set_palette (setColor (palette st) Inactive qt_color_role c) st in
      (* Calculate the disabled color. *)
      c ← QColor_new r g b;
      d ← apply_color_effect c (disabled_color st) (disabled_contrast_amount st);
      let st := set_disabled_color d st in
      Ok (Continue
            (set_palette (setColor (palette st) Disabled qt_color_role
                                   (disabled_color st)) st))
  | None => Ok (Continue st)
  end.

(** The body of the second loop: the colours of the roles. *)
Definition role_line (st : locals) (line : string) : result (flow locals) :=
  let line := Py.strip line in
  if Py.startswith "[" line && Py.endswith "]" line then
    Ok (Continue (set_section (Some (Py.slice_1_m1 line)) st))
  else if Py.contains "=" line then
    '(key, value) ← key_value line;
    role_assign st key value
  else Ok (Continue st).

(** The first loop, then the second, over the lines of the file. *)
Definition disabled_pass (lines : list string) (st : locals) : result locals :=
  for_each disabled_line lines st.

Definition role_pass (lines : list string) (st : locals) : result locals :=
  for_each role_line lines st.

Section Loader.

(** What the loader takes from its environment: the text of a theme
    file, if the file opens ([resource_path], [QFile.open],
    [QTextStream.readAll]); the palette that [QPalette()] makes; and
    [QColor.lighter] and [QColor.darker]. *)
Variable read_theme : string -> option string.
Variable new_palette : QPalette.
Variables lighter darker : QColor -> Z -> QColor.

(** The variables as the first loop finds them. *)
Definition initial_locals : locals :=
  Locals new_palette
         (QColor_rgb 128 128 128) (* Default to gray. *)
         (S754_zero false)
         false
         None.

(** The two loops over [content.split("\n")]. *)
Definition parse_theme (content : string) : result locals :=
  st ← disabled_pass (Py.split "010" content) initial_locals;
  role_pass (Py.split "010" content) st.

(** Fallback calculations *)
Definition fallback (palette : QPalette) : result QPalette :=
  palette ←
    (if negb (isValid (color_current palette Light)) then
       let base := color_current palette Button in
       Ok (setColor_all palette Light (lighter base 150))
     else Ok palette);
  palette ←
    (if negb (isValid (color_current palette Dark)) then
       let base := color_current palette Window in
       Ok (setColor_all palette Dark (darker base 150))
     else Ok palette);
  palette ←
    (if negb (isValid (color_current palette Midlight)) then
       let light := color_current palette Light in
       let button := color_current palette Button in
       midlight ← QColor_new ((red light + red button) / 2)
                             ((green light + green button) / 2)
                             ((blue light + blue button) / 2);
       Ok (setColor_all palette Midlight midlight)
     else Ok palette);
  palette ←
    (if negb (isValid (color_current palette Mid)) then
       let dark := color_current palette Dark in
       let button := color_current palette Button in
       mid ← QColor_new ((red dark + red button) / 2)
                        ((green dark + green button) / 2)
                        ((blue dark + blue button) / 2);
       Ok (setColor_all palette Mid mid)
     else Ok palette);
  if negb (isValid (color_current palette Shadow)) then
    c ← QColor_new 0 0 0;
    Ok (setColor_all palette Shadow c)
  else Ok palette.

(** Provide a theme name and get a QPalette object. *)
Definition load_color_palette (theme : string) : result QPalette :=
  match read_theme theme with
  | Some content =>
      st ← parse_theme content;
      fallback (palette st)
  | None => Raise (ValueError ("Could not open theme file: " ++ theme))
  end.

End Loader.

(** ** Notions used to state the properties *)

(** *** Amounts and colours *)

(** The floats [0.0] and [1.0], and the amounts of the interval [0, 1]:
    the binary64 numbers between the two. *)
Definition amount_0 : Py.float := S754_zero false.
Definition amount_1 : Py.float := S754_finite false 4503599627370496 (-52).

Definition in_unit_interval (a : Py.float) : bool :=
  valid_binary Py.prec Py.emax a && SFleb amount_0 a && SFleb a amount_1.

(** A valid colour with its three channels in 0-255. *)
Definition is_rgb8 (c : QColor) : bool :=
  match c with
  | Invalid => false
  | Rgb r g b => in_8bit r && in_8bit g && in_8bit b
  end.

(** A colour as Qt has them: invalid, or with its channels in 0-255. *)
Definition wf_color (c : QColor) : bool :=
  match c with
  | Invalid => true
  | Rgb _ _ _ => is_rgb8 c
  end.

(** *** The blend of the specification

    Follows the specification's words: each channel is [clamp8] of the
    integer truncation toward zero of
    [source * (1 - amount) + effectBase * amount]. The sum is written
    out here, in [weighted_sum], with the arithmetic of floats: the two
    channels and 1 are converted, and the subtraction, the two products
    and the addition are each rounded to binary64. [exact_value] is the
    rational number that a finite float stands for. *)
Definition exact_value (x : Py.float) : option Q :=
  match x with
  | S754_zero _ => Some 0%Q
  | S754_finite s m e =>
      let n := if s then Zneg m else Zpos m in
      Some (match e with
            | Zneg p => n # (2 ^ p)%positive
            | _ => inject_Z (n * 2 ^ e)
            end)
  | _ => None
  end.

Definition truncate (q : Q) : Z := Z.quot (Qnum q) (Zpos (Qden q)).

Definition clamp8 (x : Z) : Z := Z.max 0 (Z.min x 255).

Definition weighted_sum (source effectBase : Z) (amount : Py.float) : Py.float :=
  let one_minus_amount := Py.fsub (Py.float_of_int 1) amount in
  Py.fadd (Py.fmul (Py.float_of_int source) one_minus_amount)
          (Py.fmul (Py.float_of_int effectBase) amount).

Definition blend_channel (source effectBase : Z) (amount : Py.float) : option Z :=
  q ← exact_value (weighted_sum source effectBase amount);
  Some (clamp8 (truncate q)).

Definition blend (source effectBase : Z * Z * Z) (amount : Py.float)
  : option (Z * Z * Z) :=
  let '(sr, sg, sb) := source in
  let '(er, eg, eb) := effectBase in
  r ← blend_channel sr er amount;
  g ← blend_channel sg eg amount;
  b ← blend_channel sb eb amount;
  Some (r, g, b).

Definition channels (c : QColor) : Z * Z * Z := (red c, green c, blue c).

(** *** State machines of the disabled-effect pass *)

(** A machine run over the lines: [step] may fail. *)
Fixpoint run {S : Type} (step : S -> string -> result S) (lines : list string)
    (s : S) : result S :=
  match lines with
  | [] => Ok s
  | line :: rest =>
      match step s line with
      | Ok s' => run step rest s'
      | Raise e => Raise e
      end
  end.

(** What a line of the disabled section does to the effect parameters:
    [Color] overwrites the base colour, [ContrastAmount] the amount, and
    a line without [=] is skipped. *)
Definition effect_entry (st : locals) (line : string) : result locals :=
  if negb (Py.contains "=" line) then Ok st
  else
    '(key, value) ← key_value line;
    if String.eqb key "Color" then
      '(r, g, b) ← unpack_rgb value;
      c ← QColor_new r g b;
      Ok (set_disabled_color c st)
    else if String.eqb key "ContrastAmount" then
      a ← Py.float_of_str value;
      Ok (set_disabled_contrast_amount a st)
    else Ok st.

(** The machine as stated: two states, [in_disabled_section] telling
    which; the header enters the section from outside, whenever it
    occurs, and any other [[...]] header leaves it. *)
Definition stated_step (st : locals) (line : string) : result locals :=
  let line := Py.strip line in
  if String.eqb line disabled_header then Ok (set_in_disabled_section true st)
  else if negb (in_disabled_section st) then Ok st
  else if Py.startswith "[" line && Py.endswith "]" line then
    Ok (set_in_disabled_section false st)
  else effect_entry st line.

Definition stated_pass (lines : list string) (st : locals) : result locals :=
  run stated_step lines st.

(** The machine with a final state: leaving the section ends the scan. *)
Inductive scan_state : Type := Outside | InDisabledSection | Stopped.

Definition scan_step (m : scan_state) (line : string) : scan_state :=
  let line := Py.strip line in
  match m with
  | Outside =>
      if String.eqb line disabled_header then InDisabledSection else Outside
  | InDisabledSection =>
      if String.eqb line disabled_header then InDisabledSection
      else if Py.startswith "[" line then Stopped
      else InDisabledSection
  | Stopped => Stopped
  end.

(** The state of the scan after some lines. *)
Definition scan (lines : list string) : scan_state :=
  fold_left scan_step lines Outside.

Definition final_step (ms : scan_state * locals) (line : string)
  : result (scan_state * locals) :=
  let '(m, st) := ms in
  match m, scan_step m line with
  | InDisabledSection, InDisabledSection =>
      if String.eqb (Py.strip line) disabled_header then Ok (InDisabledSection, st)
      else st' ← effect_entry st (Py.strip line); Ok (InDisabledSection, st')
  | _, m' => Ok (m', st)
  end.

(** The variables of the loop at a state of the machine. *)
Definition at_state (ms : scan_state * locals) : locals :=
  set_in_disabled_section
    (match ms.1 with InDisabledSection => true | _ => false end) ms.2.

(** *** The role-colour pass *)

(** The section in force after some lines, from the section [sec]. *)
Definition section_step (sec : option string) (line : string) : option string :=
  let line := Py.strip line in
  if Py.startswith "[" line && Py.endswith "]" line
  then Some (Py.slice_1_m1 line) else sec.

Definition section_after (lines : list string) (sec : option string)
  : option string :=
  fold_left section_step lines sec.

(** The role that a line gives a colour to, in section [sec]. *)
Definition role_of_line (sec : option string) (line : string) : option ColorRole :=
  let line := Py.strip line in
  if Py.startswith "[" line && Py.endswith "]" line then None
  else if Py.contains "=" line then
    match key_value line with
    | Ok (key, _) => role_of sec key
    | Raise _ => None
    end
  else None.

(** The roles set by the role-colour pass. *)
Fixpoint assigned_roles (lines : list string) (sec : option string)
  : list ColorRole :=
  match lines with
  | [] => []
  | line :: rest =>
      match role_of_line sec line with
      | Some role => role :: assigned_roles rest (section_step sec line)
      | None => assigned_roles rest (section_step sec line)
      end
  end.

(** A value that is three comma-separated integers. *)
Definition three_integers (value : string) : option (Z * Z * Z) :=
  match Py.split "," value with
  | [s1; s2; s3] =>
      match Py.int s1, Py.int s2, Py.int s3 with
      | Ok r, Ok g, Ok b => Some (r, g, b)
      | _, _, _ => None
      end
  | _ => None
  end.

(** The roles of the fallback pass, and the average of two colours. *)
Definition fallback_roles : list ColorRole := [Light; Dark; Midlight; Mid; Shadow].

Definition average (a b : QColor) : QColor :=
  QColor_rgb ((red a + red b) / 2) ((green a + green b) / 2)
             ((blue a + blue b) / 2).

(** *** An environment to run the loader in

    Theme files, a palette with no colour set and one with every colour
    valid, and stand-ins for [lighter] and [darker] that scale the
    channels. *)
Definition nl : string := String "010" EmptyString.

Definition effect_theme : string :=
  "[ColorEffects:Disabled]" ++ nl ++
  "Color=100,100,100" ++ nl ++
  "ContrastAmount=0.5" ++ nl ++
  "[Colors:Button]" ++ nl ++
  "BackgroundNormal=200,200,200" ++ nl ++
  "ForegroundNormal=0,0,0".

Definition plain_theme : string :=
  "[Colors:Button]" ++ nl ++
  "BackgroundNormal = 200,120,40" ++ nl ++
  "[Colors:Window]" ++ nl ++
  "BackgroundNormal=90,60,30".

Definition out_of_range_theme : string :=
  "[Colors:Button]" ++ nl ++
  "BackgroundNormal=300,0,0".

Definition malformed_theme : string :=
  "[Colors:Button]" ++ nl ++
  "BackgroundNormal=200,200".

Definition sample_themes (theme : string) : option string :=
  if String.eqb theme "effect.colors" then Some effect_theme
  else if String.eqb theme "plain.colors" then Some plain_theme
  else if String.eqb theme "out_of_range.colors" then Some out_of_range_theme
  else if String.eqb theme "malformed.colors" then Some malformed_theme
  else None.

Definition empty_palette : QPalette := fun _ _ => Invalid.


Definition scale (c : QColor) (num den : Z) : QColor :=
  match c with
  | Invalid => Invalid
  | Rgb r g b =>
      QColor_rgb (Z.min 255 (r * num / den)) (Z.min 255 (g * num / den))
                 (Z.min 255 (b * num / den))
  end.

Definition sample_lighter (c : QColor) (factor : Z) : QColor := scale c factor 100.
Definition sample_darker (c : QColor) (factor : Z) : QColor := scale c 100 factor.

Definition sample_load : string -> result QPalette :=
  load_color_palette sample_themes empty_palette sample_lighter sample_darker.

(** *** Auxiliary notions *)

(** The channel values 0 to 255, and the test that a channel has been
    computed to a given value. *)
Definition channel_range : list Z := map Z.of_nat (seq 0 256).

Definition channel_is (m : result Z) (v : Z) : bool :=
  match m with Ok w => Z.eqb w v | Raise _ => false end.

(** The variables at the end of a loop body. *)
Definition flow_state {S : Type} (f : flow S) : S :=
  match f with Continue s => s | Break s => s end.

(** Every colour of a palette is as Qt has them. *)
Definition wf_palette (p : QPalette) : Prop :=
  forall g r, wf_color (p g r) = true.


(** Some line of the theme is the header of the disabled section. *)
Definition has_disabled_section (lines : list string) : bool :=
  existsb (fun l => String.eqb (Py.strip l) disabled_header) lines.

(** *** The real number that a float stands for *)

Definition bpow (e : Z) : R := powerRZ 2 e.

Definition F2R (x : Py.float) : R :=
  match x with
  | S754_finite s m e => (IZR (cond_Zopp s (Zpos m)) * bpow e)%R
  | _ => 0%R
  end.

Definition finite_or_zero (x : Py.float) : bool :=
  match x with
  | S754_zero _ | S754_finite _ _ _ => true
  | _ => false
  end.

(** A float [x] stands for the real [v] up to [2^-41]. *)
Definition approx (x : Py.float) (v : R) : Prop :=
  finite_or_zero x = true /\ (Rabs (F2R x - v) <= bpow (-41))%R.

(** ** The rest of [handtex/gui_utils.py] *)

(** *** Message boxes *)

Fixpoint spaces (n : nat) : string :=
  match n with
  | O => EmptyString
  | S n' => String " " (spaces n')
  end.

(** [s.ljust(width)]: [s] followed by the spaces that bring it to
    [width] characters, if it is shorter. *)
Definition ljust (s : string) (width : nat) : string :=
  s ++ spaces (width - String.length s).

(** For all show functions, pad the dialog message, so that the dialog
    is not too narrow for the window title. *)
Definition MIN_MSG_LENGTH : nat := 50.

Module QMessageBox.

Inductive Icon : Type := NoIcon | Information | Warning | Critical | Question.

Inductive StandardButton : Type := Ok | Cancel | Yes | Abort.

(** A message box as the show functions set it up; [buttons] lists the
    buttons of the flag union. *)
Record box : Type := Box {
  icon : Icon;
  title : string;
  text : string;
  buttons : list StandardButton
}.

End QMessageBox.

(** The boxes that [show_critical], [show_warning], [show_info] and
    [show_question] make and run. *)
Definition critical_box (title msg : string) : QMessageBox.box :=
  let msg := ljust msg MIN_MSG_LENGTH in
  QMessageBox.Box QMessageBox.Critical title msg
                  [QMessageBox.Yes; QMessageBox.Abort].

Definition warning_box (title msg : string) : QMessageBox.box :=
  let msg := ljust msg MIN_MSG_LENGTH in
  QMessageBox.Box QMessageBox.Warning title msg [QMessageBox.Ok].

Definition info_box (title msg : string) : QMessageBox.box :=
  let msg := ljust msg MIN_MSG_LENGTH in
  QMessageBox.Box QMessageBox.Information title msg [QMessageBox.Ok].

Definition question_box (title msg : string)
    (buttons : list QMessageBox.StandardButton) : QMessageBox.box :=
  let msg := ljust msg MIN_MSG_LENGTH in
  QMessageBox.Box QMessageBox.Question title msg buttons.

Section MessageBoxes.

(** [box.exec()]: what the user answers. *)
Variable exec : QMessageBox.box -> Z.

Definition show_critical (title msg : string) : Z :=
  exec (critical_box title msg).

Definition show_question (title msg : string)
    (buttons : list QMessageBox.StandardButton) : Z :=
  exec (question_box title msg buttons).

End MessageBoxes.

(** *** Reporting exceptions *)

(** An exception class: [KeyboardInterrupt], another class that does
    not derive from [Exception], or a class that does. *)
Inductive exception_class : Type :=
| KeyboardInterrupt
| BaseExceptionClass (name : string)
| ExceptionClass (name : string).

Definition derives_Exception (c : exception_class) : bool :=
  match c with ExceptionClass _ => true | _ => false end.

(** The triple of [sys.exc_info()], of an error bundle tuple or of the
    fields of a [WorkerError]; the type is [None] when no exception is
    being handled. *)
Record exc_info : Type := ExcInfo {
  exception_type : option exception_class;
  exception_value : string;
  exception_traceback : string
}.

Inductive error_bundle : Type :=
| NoBundle
| TupleBundle (info : exc_info)
| WorkerErrorBundle (info : exc_info)
| InvalidBundle (text : string).

(** What the functions do to the outside: log lines, and the error
    dialog that is made and run. *)
Inductive event : Type :=
| LogDebug (text : string)
| LogError (text : string)
| LogWarning (text : string)
| LogCritical (msg : string) (exception : exc_info)
| ErrorDialogExec (parent : option string) (title msg : string).

Definition is_KeyboardInterrupt (info : exc_info) : bool :=
  match exception_type info with
  | Some KeyboardInterrupt => true
  | _ => false
  end.

(** Show an exception in a dialog along with logs; [sys_exc_info] is
    what [sys.exc_info()] returns. *)
Definition show_exception (sys_exc_info : exc_info) (parent : option string)
    (title msg : string) (bundle : error_bundle) (collect_exception : bool)
  : list event :=
  if collect_exception then
    let '(log, info) :=
      match bundle with
      | TupleBundle info => ([], info)
      | WorkerErrorBundle info => ([], info)
      | InvalidBundle text =>
          ([LogError ("Invalid error bundle: " ++ text)], sys_exc_info)
      | NoBundle => ([], sys_exc_info)
      end in
    (* Ignore the exception if it's a KeyboardInterrupt. *)
    if is_KeyboardInterrupt info then
      (log ++ [LogWarning "User interrupted the process."])%list
    else
      (log ++ [LogCritical msg info; ErrorDialogExec parent title msg])%list
  else [ErrorDialogExec parent title msg].

(** Open any given file with the default application. [openUrl] tells
    whether the call raises, and what; the result is the events and the
    exception that [open_file] lets through. *)
Definition open_file (openUrl : string -> option (exception_class * string * string))
    (path : string) : list event * option (exception_class * string * string) :=
  let log := [LogDebug ("Opening file " ++ path)] in
  match openUrl path with
  | None => (log, None)
  | Some (c, value, traceback) =>
      if derives_Exception c then
        ((log ++ show_exception (ExcInfo (Some c) value traceback) None
                   "File Error" "Failed to open file." NoBundle true)%list,
         None)
      else (log, Some (c, value, traceback))
  end.

(** *** Custom icons *)

Inductive icon_path_result (Path : Type) : Type :=
| IconPath (p : Path)
| RaiseFileNotFoundError (what : string).

Arguments IconPath {Path} p.
Arguments RaiseFileNotFoundError {Path} what.

Inductive QIcon : Type :=
| QIcon_file (fileName : string)
| QIcon_null.

Section CustomIcons.

(** Paths and the file system: [joinpath p s] is [p / s], [is_file] is
    [Path.is_file], [path_str] is [str], and [custom_icons] is
    [resource_path(custom_icons)]. *)
Variable Path : Type.
Variable joinpath : Path -> string -> Path.
Variable is_file : Path -> bool.
Variable path_str : Path -> string.
Variable custom_icons : Path.

Definition icon_extensions : list string := [""; ".svg"; ".png"].

Definition custom_icon_dir (theme : string) : Path :=
  if String.eqb theme "" then custom_icons else joinpath custom_icons theme.

(** [for extension in ...: if icon_path.is_file(): return icon_path] *)
Fixpoint first_icon_file (dir : Path) (icon_name : string)
    (extensions : list string) : option Path :=
  match extensions with
  | [] => None
  | extension :: rest =>
      let icon_path := joinpath dir (icon_name ++ extension) in
      if is_file icon_path then Some icon_path
      else first_icon_file dir icon_name rest
  end.

(** Loads the given icon from the dark, light, or color-agnostic set of
    custom icons. *)
Definition custom_icon_path (icon_name theme : string) : icon_path_result Path :=
  let dir := custom_icon_dir theme in
  match first_icon_file dir icon_name icon_extensions with
  | Some icon_path => IconPath icon_path
  | None =>
      RaiseFileNotFoundError
        ("Failed to load '" ++ path_str (joinpath dir icon_name) ++ "'")
  end.

(** If the file could not be found, a QIcon with a null pixmap is
    returned, and the error is logged. *)
Definition load_custom_icon (icon_name theme : string) : QIcon * list event :=
  match custom_icon_path icon_name theme with
  | IconPath icon_path => (QIcon_file (path_str icon_path), [])
  | RaiseFileNotFoundError e => (QIcon_null, [LogError e])
  end.

End CustomIcons.

(** *** Notions used to state the further properties *)

(** A text made of spaces only. *)
Fixpoint all_spaces (s : string) : bool :=
  match s with
  | EmptyString => true
  | String c s' => Ascii.eqb c " " && all_spaces s'
  end.

(** How many times the error dialog is run. *)
Fixpoint dialogs (trace : list event) : nat :=
  match trace with
  | [] => O
  | ErrorDialogExec _ _ _ :: rest => S (dialogs rest)
  | _ :: rest => dialogs rest
  end.

(** The exception that [show_exception] reports. *)
Definition collected (sys_exc_info : exc_info) (bundle : error_bundle) : exc_info :=
  match bundle with
  | TupleBundle info | WorkerErrorBundle info => info
  | InvalidBundle _ | NoBundle => sys_exc_info
  end.

(** A sample file system for the icons: paths are lists of components,
    and two files exist. *)
Definition sample_joinpath (p : list string) (s : string) : list string :=
  (p ++ [s])%list.

Definition sample_is_file (p : list string) : bool :=
  match p with
  | [a; b; c] =>
      String.eqb a "icons" && String.eqb b "dark"
      && (String.eqb c "undo.svg" || String.eqb c "undo.png")
  | _ => false
  end.

Definition sample_path_str (p : list string) : string :=
  String.concat "/" p.

(** A theme that sets a role twice, and one whose contrast amount is
    not a number. *)
Definition repeated_theme : string :=
  "[Colors:Button]" ++ nl ++
  "BackgroundNormal=1,2,3" ++ nl ++
  "BackgroundNormal = 4,5,6".

Definition nan_theme : string :=
  "[ColorEffects:Disabled]" ++ nl ++
  "ContrastAmount=nan" ++ nl ++
  "[Colors:Button]" ++ nl ++
  "BackgroundNormal=1,2,3".


(** * Properties *)

(** ** The [result] monad *)

Lemma bind_Ok {A B : Type} (a : A) (k : A -> result B) : Ok a ≫= k = k a.
Proof. reflexivity. Qed.

Lemma bind_Raise {A B : Type} (e : exn) (k : A -> result B) :
  Raise e ≫= k = Raise e.
Proof. reflexivity. Qed.

Lemma bind_inv_Ok {A B : Type} (m : result A) (k : A -> result B) (b : B) :
  m ≫= k = Ok b -> exists a, m = Ok a /\ k a = Ok b.
Proof. destruct m as [a|e]; [eauto | discriminate]. Qed.

Lemma bind_raises {A B : Type} (m : result A) (k : A -> result B) :
  (forall a, m = Ok a -> exists e, k a = Raise e) -> exists e, m ≫= k = Raise e.
Proof. destruct m as [a|e]; simpl; eauto. Qed.

(** ** Opening the theme file *)

(** C6: when the theme file cannot be opened, [load_color_palette]
    raises the [ValueError] naming the theme: nothing is parsed, the
    fallback pass does not run and no palette is returned. *)
Theorem C6_unreadable_theme_raises
    (read_theme : string -> option string) (new_palette : QPalette)
    (lighter darker : QColor -> Z -> QColor) (theme : string) :
  read_theme theme = None ->
  load_color_palette read_theme new_palette lighter darker theme
  = Raise (ValueError ("Could not open theme file: " ++ theme))
  /\ is_ok (load_color_palette read_theme new_palette lighter darker theme) = false.
Proof.
  intros Hopen. unfold load_color_palette. rewrite Hopen. split; reflexivity.
Qed.

Lemma C6_unreadable_theme_raises_witness :
  sample_themes "missing.colors" = None /\
  sample_load "missing.colors"
  = Raise (ValueError "Could not open theme file: missing.colors").
Proof.
  split; [reflexivity |].
  apply (C6_unreadable_theme_raises sample_themes empty_palette
           sample_lighter sample_darker "missing.colors").
  reflexivity.
Defined.

(** ** The colour effect *)

Lemma int_of_float_truncate (x : Py.float) (q : Q) :
  exact_value x = Some q -> Py.int_of_float x = Ok (truncate q).
Proof.
  destruct x as [s| s | |s m e]; simpl; try discriminate.
  - intros [= <-]. reflexivity.
  - intros [= <-]. f_equal. unfold truncate. destruct e as [|p|p]; simpl Qnum; simpl Qden.
    + rewrite Z.quot_1_r, Z.shiftl_mul_pow2 by lia. destruct s; lia.
    + rewrite Z.quot_1_r, Z.shiftl_mul_pow2 by lia. destruct s; lia.
    + change (Z.shiftl (Z.pos m) (Z.neg p)) with (Z.shiftr (Z.pos m) (Z.pos p)).
      rewrite Z.shiftr_div_pow2 by lia.
      rewrite Pos2Z.inj_pow.
      assert (Hd : 0 < Z.pos 2 ^ Z.pos p) by (apply Z.pow_pos_nonneg; lia).
      destruct s.
      * change (Z.neg m) with (- Z.pos m).
        rewrite Z.quot_opp_l by lia. rewrite Z.quot_div_nonneg by lia. reflexivity.
      * rewrite Z.quot_div_nonneg by lia. reflexivity.
Qed.

Lemma int_of_float_raises (x : Py.float) :
  exact_value x = None -> exists e, Py.int_of_float x = Raise e.
Proof. destruct x; simpl; try discriminate; eauto. Qed.

Lemma clamp_8bit_in_8bit (v : Z) : in_8bit (clamp_8bit v) = true.
Proof. unfold in_8bit, clamp_8bit. lia. Qed.

Lemma in_8bit_in_c_int (v : Z) : in_8bit v = true -> in_c_int v = true.
Proof. unfold in_8bit, in_c_int. change (2 ^ 31) with 2147483648. lia. Qed.

Lemma QColor_new_8bit (r g b : Z) :
  in_8bit r = true -> in_8bit g = true -> in_8bit b = true ->
  QColor_new r g b = Ok (Rgb r g b).
Proof.
  intros Hr Hg Hb. unfold QColor_new, QColor_rgb.
  rewrite !in_8bit_in_c_int by assumption. rewrite Hr, Hg, Hb. reflexivity.
Qed.

(** The expression of the code is the sum of the specification. *)
Lemma effect_value_weighted_sum (s e : Z) (a : Py.float) :
  effect_value s e a = weighted_sum s e a.
Proof. reflexivity. Qed.

Lemma effect_channel_blend (s e : Z) (a : Py.float) :
  match blend_channel s e a with
  | Some v => effect_channel s e a = Ok v /\ in_8bit v = true
  | None => exists err, effect_channel s e a = Raise err
  end.
Proof.
  unfold blend_channel, effect_channel.
  rewrite <- effect_value_weighted_sum.
  destruct (exact_value (effect_value s e a)) as [q|] eqn:Hq; simpl.
  - rewrite (int_of_float_truncate _ _ Hq). simpl. split; [reflexivity |].
    apply clamp_8bit_in_8bit.
  - destruct (int_of_float_raises _ Hq) as [err ->]. eauto.
Qed.

(** *** The amounts 0.0 and 1.0, channel by channel *)

Lemma in_channel_range (v : Z) : in_8bit v = true -> In v channel_range.
Proof.
  intros H. unfold in_8bit in H. unfold channel_range.
  apply in_map_iff. exists (Z.to_nat v). split; [lia |].
  apply in_seq. lia.
Qed.

Lemma channel_is_true (m : result Z) (v : Z) : channel_is m v = true -> m = Ok v.
Proof.
  destruct m as [w|e]; simpl; [| discriminate].
  intros H. apply Z.eqb_eq in H. congruence.
Qed.

Lemma effect_channel_bounds (s e : Z) :
  in_8bit s = true -> in_8bit e = true ->
  effect_channel s e amount_0 = Ok s /\ effect_channel s e amount_1 = Ok e.
Proof.
  intros Hs He.
  assert (Hall : forallb (fun s => forallb (fun e =>
             channel_is (effect_channel s e amount_0) s
             && channel_is (effect_channel s e amount_1) e)
             channel_range) channel_range = true) by (vm_compute; reflexivity).
  rewrite forallb_forall in Hall.
  specialize (Hall s (in_channel_range s Hs)).
  rewrite forallb_forall in Hall.
  specialize (Hall e (in_channel_range e He)).
  apply andb_prop in Hall. destruct Hall as [H0 H1].
  split; apply channel_is_true; assumption.
Qed.

Lemma amount_literals :
  Py.float_of_str "0.0" = Ok amount_0 /\ Py.float_of_str "1.0" = Ok amount_1
  /\ Py.float_of_int 1 = amount_1.
Proof. repeat split; vm_compute; reflexivity. Qed.

Lemma is_rgb8_inv (c : QColor) :
  is_rgb8 c = true ->
  exists r g b, c = Rgb r g b /\ in_8bit r = true /\ in_8bit g = true
                /\ in_8bit b = true.
Proof.
  destruct c as [|r g b]; simpl; [discriminate |].
  intros H. apply andb_prop in H. destruct H as [H Hb].
  apply andb_prop in H. destruct H as [Hr Hg]. eauto 10.
Qed.

(** C8: for a source colour and an effect base colour with channels in
    0-255, the effect at amount 0.0 returns the source colour and the
    effect at amount 1.0 returns the effect base colour. *)
Theorem C8_effect_at_0_and_1 (source effect_base : QColor) :
  is_rgb8 source = true -> is_rgb8 effect_base = true ->
  apply_color_effect source effect_base amount_0 = Ok source
  /\ apply_color_effect source effect_base amount_1 = Ok effect_base.
Proof.
  intros Hs He.
  destruct (is_rgb8_inv _ Hs) as (sr & sg & sb & -> & Hsr & Hsg & Hsb).
  destruct (is_rgb8_inv _ He) as (er & eg & eb & -> & Her & Heg & Heb).
  destruct (effect_channel_bounds sr er Hsr Her) as [Hr0 Hr1].
  destruct (effect_channel_bounds sg eg Hsg Heg) as [Hg0 Hg1].
  destruct (effect_channel_bounds sb eb Hsb Heb) as [Hb0 Hb1].
  unfold apply_color_effect; simpl red; simpl green; simpl blue.
  rewrite Hr0, Hg0, Hb0, Hr1, Hg1, Hb1. simpl.
  split; apply QColor_new_8bit; assumption.
Qed.

Lemma C8_effect_at_0_and_1_witness :
  apply_color_effect (Rgb 200 120 40) (Rgb 128 128 128) amount_0
  = Ok (Rgb 200 120 40)
  /\ apply_color_effect (Rgb 200 120 40) (Rgb 128 128 128) amount_1
     = Ok (Rgb 128 128 128).
Proof.
  apply (C8_effect_at_0_and_1 (Rgb 200 120 40) (Rgb 128 128 128));
    reflexivity.
Defined.

(** ** Stripping and splitting *)

Lemma lstrip_app_nonspace (k : string) (c : ascii) (t : string) :
  Py.isspace c = false ->
  Py.lstrip (k ++ String c t) = Py.lstrip k ++ String c t.
Proof.
  intros Hc. induction k as [|d k IH]; simpl.
  - rewrite Hc. reflexivity.
  - destruct (Py.isspace d); [exact IH | reflexivity].
Qed.

Lemma rstrip_app_nonspace (s : string) (c : ascii) (t : string) :
  Py.isspace c = false ->
  Py.rstrip (s ++ String c t) = s ++ String c (Py.rstrip t).
Proof.
  intros Hc. induction s as [|d s IH].
  - simpl. destruct (Py.rstrip t); [rewrite Hc |]; reflexivity.
  - change (Py.rstrip (String d s ++ String c t))
      with (match Py.rstrip (s ++ String c t) with
            | EmptyString =>
                if Py.isspace d then EmptyString else String d EmptyString
            | u => String d u
            end).
    rewrite IH. destruct s; reflexivity.
Qed.

Lemma lstrip_idempotent (s : string) : Py.lstrip (Py.lstrip s) = Py.lstrip s.
Proof.
  induction s as [|c s IH]; simpl; [reflexivity |].
  destruct (Py.isspace c) eqn:Hc; [exact IH |]. simpl. rewrite Hc. reflexivity.
Qed.

Lemma rstrip_idempotent (s : string) : Py.rstrip (Py.rstrip s) = Py.rstrip s.
Proof.
  induction s as [|c s IH]; simpl; [reflexivity |].
  destruct (Py.rstrip s) as [|d u] eqn:Hs.
  - destruct (Py.isspace c) eqn:Hc; simpl; [reflexivity |]. rewrite Hc. reflexivity.
  - change (Py.rstrip (String c (String d u)))
      with (match Py.rstrip (String d u) with
            | EmptyString =>
                if Py.isspace c then EmptyString else String c EmptyString
            | t => String c t
            end).
    rewrite IH. reflexivity.
Qed.

Lemma lstrip_rstrip (s : string) :
  Py.lstrip (Py.rstrip s) = Py.rstrip (Py.lstrip s).
Proof.
  induction s as [|c s IH]; simpl; [reflexivity |].
  destruct (Py.isspace c) eqn:Hc.
  - rewrite <- IH. destruct (Py.rstrip s) as [|d u]; [reflexivity |].
    simpl. rewrite Hc. reflexivity.
  - change (Py.rstrip (String c s))
      with (match Py.rstrip s with
            | EmptyString =>
                if Py.isspace c then EmptyString else String c EmptyString
            | t => String c t
            end).
    destruct (Py.rstrip s); simpl; rewrite Hc; reflexivity.
Qed.

Lemma strip_lstrip (s : string) : Py.strip (Py.lstrip s) = Py.strip s.
Proof. unfold Py.strip. rewrite lstrip_idempotent. reflexivity. Qed.

Lemma strip_rstrip (s : string) : Py.strip (Py.rstrip s) = Py.strip s.
Proof.
  unfold Py.strip. rewrite lstrip_rstrip, rstrip_idempotent. reflexivity.
Qed.

(** A left-stripped text is empty or begins with a character that is not
    white space, which stripping on the right keeps. *)
Lemma lstrip_cases (s : string) :
  Py.lstrip s = EmptyString
  \/ exists c t, Py.lstrip s = String c t /\ Py.isspace c = false.
Proof.
  induction s as [|c s IH]; simpl; [left; reflexivity |].
  destruct (Py.isspace c) eqn:Hc; [exact IH | right; eauto].
Qed.

Lemma rstrip_nonspace_head (c : ascii) (t : string) :
  Py.isspace c = false -> Py.rstrip (String c t) = String c (Py.rstrip t).
Proof. intros Hc. simpl. destruct (Py.rstrip t); [rewrite Hc |]; reflexivity. Qed.

Lemma startswith_strip_app (c : ascii) (k t : string) (d : ascii) :
  Ascii.eqb d c = false ->
  Py.startswith c (Py.lstrip k ++ String d t) = Py.startswith c (Py.strip k).
Proof.
  intros Hd. unfold Py.strip.
  destruct (lstrip_cases k) as [-> | (a & u & -> & Ha)].
  - simpl. exact Hd.
  - rewrite rstrip_nonspace_head by exact Ha. reflexivity.
Qed.

Lemma endswith_app (c : ascii) (s : string) (d : ascii) (t : string) :
  Py.endswith c (s ++ String d t) = Py.endswith c (String d t).
Proof.
  induction s as [|a s IH]; [reflexivity |].
  change (Py.endswith c (String a s ++ String d t))
    with (match (s ++ String d t) with
          | EmptyString => Ascii.eqb a c
          | _ => Py.endswith c (s ++ String d t)
          end).
  rewrite IH. destruct s; reflexivity.
Qed.

Lemma isspace_neq (c d : ascii) :
  Py.isspace c = true -> Py.isspace d = false -> Ascii.eqb c d = false.
Proof.
  intros Hc Hd. destruct (Ascii.eqb c d) eqn:E; [| reflexivity].
  apply Ascii.eqb_eq in E. congruence.
Qed.

Lemma endswith_lstrip (c : ascii) (s : string) :
  Py.isspace c = false -> Py.endswith c (Py.lstrip s) = Py.endswith c s.
Proof.
  intros Hc. induction s as [|d s IH]; [reflexivity |].
  simpl Py.lstrip. destruct (Py.isspace d) eqn:Hd; [| reflexivity].
  rewrite IH. destruct s; [| reflexivity].
  simpl. symmetry. apply isspace_neq; assumption.
Qed.

Lemma endswith_strip_app (c : ascii) (s v : string) (d : ascii) :
  Py.isspace c = false -> Ascii.eqb d c = false ->
  Py.endswith c (s ++ String d (Py.rstrip v)) = Py.endswith c (Py.strip v).
Proof.
  intros Hc Hd. rewrite endswith_app.
  unfold Py.strip. rewrite <- lstrip_rstrip. rewrite endswith_lstrip by exact Hc.
  destruct (Py.rstrip v); [simpl; exact Hd | reflexivity].
Qed.

Lemma contains_app_char (c : ascii) (s t : string) :
  Py.contains c (s ++ String c t) = true.
Proof.
  induction s as [|d s IH]; simpl.
  - rewrite Ascii.eqb_refl. reflexivity.
  - rewrite IH. apply orb_true_r.
Qed.

Lemma contains_lstrip (c : ascii) (s : string) :
  Py.contains c s = false -> Py.contains c (Py.lstrip s) = false.
Proof.
  induction s as [|d s IH]; simpl; [reflexivity |].
  intros H. apply orb_false_elim in H. destruct H as [Hd Hs].
  destruct (Py.isspace d); [auto |]. simpl. rewrite Hd, Hs. reflexivity.
Qed.

Lemma split_1_app (c : ascii) (k v : string) :
  Py.contains c k = false -> Py.split_1 c (k ++ String c v) = [k; v].
Proof.
  induction k as [|d k IH]; simpl.
  - intros _. rewrite Ascii.eqb_refl. reflexivity.
  - intros H. apply orb_false_elim in H. destruct H as [Hd Hk].
    rewrite Hd, (IH Hk). reflexivity.
Qed.

Lemma strip_key_value_line (k v : string) :
  Py.strip (k ++ String "=" v) = Py.lstrip k ++ String "=" (Py.rstrip v).
Proof.
  unfold Py.strip.
  rewrite lstrip_app_nonspace by reflexivity.
  apply rstrip_app_nonspace. reflexivity.
Qed.

Lemma key_value_strip (k v : string) :
  Py.contains "=" k = false ->
  key_value (Py.strip (k ++ String "=" v)) = Ok (Py.strip k, Py.strip v).
Proof.
  intros Hk. rewrite strip_key_value_line. unfold key_value.
  rewrite split_1_app by (apply contains_lstrip; exact Hk).
  simpl. rewrite strip_lstrip, strip_rstrip. reflexivity.
Qed.

Lemma contains_not_header (line : string) :
  Py.contains "=" line = true -> String.eqb line disabled_header = false.
Proof.
  intros H. destruct (String.eqb line disabled_header) eqn:E; [| reflexivity].
  apply String.eqb_eq in E. subst line. discriminate H.
Qed.

(** C10: in both loops a [key=value] line is split at its first [=]
    only and the two parts are stripped: for a key [k] without [=] and
    any value [v], also with further [=] in it, the line [k=v] is read
    as the pair of the stripped [k] and the stripped [v], and what
    either loop does with the line depends on the line through that
    pair alone. *)
Theorem C10_split_at_first_equals_and_strip (st : locals) (k v : string) :
  Py.contains "=" k = false ->
  key_value (Py.strip (k ++ "=" ++ v)) = Ok (Py.strip k, Py.strip v)
  /\ (in_disabled_section st = true ->
      Py.startswith "[" (Py.strip k) = false ->
      disabled_line st (k ++ "=" ++ v)
      = disabled_assign st (Py.strip k) (Py.strip v))
  /\ (Py.startswith "[" (Py.strip k) && Py.endswith "]" (Py.strip v) = false ->
      role_line st (k ++ "=" ++ v)
      = role_assign st (Py.strip k) (Py.strip v)).
Proof.
  intros Hk. change (k ++ "=" ++ v) with (k ++ String "=" v).
  pose proof (key_value_strip k v Hk) as Hkv.
  assert (Hc : Py.contains "=" (Py.strip (k ++ String "=" v)) = true).
  { rewrite strip_key_value_line. apply contains_app_char. }
  assert (Hs : Py.startswith "[" (Py.strip (k ++ String "=" v))
               = Py.startswith "[" (Py.strip k)).
  { rewrite strip_key_value_line. apply startswith_strip_app. reflexivity. }
  assert (He : Py.endswith "]" (Py.strip (k ++ String "=" v))
               = Py.endswith "]" (Py.strip v)).
  { rewrite strip_key_value_line. apply endswith_strip_app; reflexivity. }
  split; [exact Hkv |]. split.
  - intros Hin Hbr. unfold disabled_line.
    rewrite (contains_not_header _ Hc), Hin, Hs, Hbr, Hc, Hkv. reflexivity.
  - intros Hhd. unfold role_line. rewrite Hs, He, Hhd, Hc, Hkv. reflexivity.
Qed.

Lemma C10_split_at_first_equals_and_strip_witness :
  key_value (Py.strip ("Color " ++ "=" ++ " 1,2,3=4")) = Ok ("Color", "1,2,3=4")
  /\ disabled_line (set_in_disabled_section true (initial_locals empty_palette))
       ("Color " ++ "=" ++ " 1,2,3=4")
     = disabled_assign
         (set_in_disabled_section true (initial_locals empty_palette))
         "Color" "1,2,3=4"
  /\ role_line (set_in_disabled_section true (initial_locals empty_palette))
       ("Color " ++ "=" ++ " 1,2,3=4")
     = role_assign (set_in_disabled_section true (initial_locals empty_palette))
         "Color" "1,2,3=4".
Proof.
  destruct (C10_split_at_first_equals_and_strip
              (set_in_disabled_section true (initial_locals empty_palette))
              "Color " " 1,2,3=4" eq_refl) as (H1 & H2 & H3).
  split; [exact H1 |].
  split; [exact (H2 eq_refl eq_refl) | exact (H3 eq_refl)].
Defined.

(** ** The disabled-effect pass as a state machine *)

Lemma set_in_disabled_section_twice (a b : bool) (st : locals) :
  set_in_disabled_section a (set_in_disabled_section b st)
  = set_in_disabled_section a st.
Proof. reflexivity. Qed.

Lemma run_stopped (lines : list string) (st : locals) :
  run final_step lines (Stopped, st) = Ok (Stopped, st).
Proof. induction lines as [|l lines IH]; simpl; [reflexivity | exact IH]. Qed.

Lemma run_app {S : Type} (step : S -> string -> result S)
    (pre post : list string) (s : S) :
  run step (pre ++ post) s = run step pre s ≫= run step post.
Proof.
  revert s. induction pre as [|l pre IH]; intros s; simpl; [reflexivity |].
  destruct (step s l) as [s'|e]; [apply IH | reflexivity].
Qed.

Lemma run_cons {S : Type} (step : S -> string -> result S) (l : string)
    (lines : list string) (s : S) :
  run step (l :: lines) s = step s l ≫= run step lines.
Proof. reflexivity. Qed.

Lemma final_step_scan (m m' : scan_state) (st st' : locals) (l : string) :
  final_step (m, st) l = Ok (m', st') -> m' = scan_step m l.
Proof.
  unfold final_step.
  destruct m, (scan_step _ l); try (intros [= <- _]; reflexivity).
  destruct (String.eqb (Py.strip l) disabled_header);
    [intros [= <- _]; reflexivity |].
  destruct (effect_entry st (Py.strip l)); [| discriminate].
  intros [= <- _]. reflexivity.
Qed.

Lemma run_final_step_scan (lines : list string) (m m' : scan_state)
    (st st' : locals) :
  run final_step lines (m, st) = Ok (m', st') ->
  m' = fold_left scan_step lines m.
Proof.
  revert m st. induction lines as [|l lines IH]; intros m st.
  - intros [= <- _]. reflexivity.
  - rewrite run_cons. intros Hrun.
    apply bind_inv_Ok in Hrun. destruct Hrun as ([m1 st1] & Hstep & Hrun).
    apply final_step_scan in Hstep. subst m1.
    exact (IH _ _ Hrun).
Qed.

Lemma disabled_assign_effect_entry (st : locals) (line : string) :
  Py.contains "=" line = true ->
  ('(key, value) ← key_value line;
   disabled_assign (set_in_disabled_section true st) key value)
  = (st' ← effect_entry st line;
     Ok (Continue (set_in_disabled_section true st'))).
Proof.
  intros Hc. unfold effect_entry. rewrite Hc. simpl negb. cbv iota.
  destruct (key_value line) as [[key value]|e]; [| reflexivity].
  simpl. unfold disabled_assign.
  destruct (String.eqb key "Color").
  - destruct (unpack_rgb value) as [[[r g] b]|e]; [| reflexivity]. simpl.
    destruct (QColor_new r g b); reflexivity.
  - destruct (String.eqb key "ContrastAmount"); [| reflexivity].
    destruct (Py.float_of_str value); reflexivity.
Qed.

Lemma disabled_pass_final_machine (lines : list string) (m : scan_state)
    (st : locals) :
  m <> Stopped ->
  disabled_pass lines (at_state (m, st))
  = (ms ← run final_step lines (m, st); Ok (at_state ms)).
Proof.
  revert m st. induction lines as [|l lines IH]; intros m st Hm;
    [reflexivity |].
  unfold disabled_pass in *. simpl for_each. simpl run.
  unfold disabled_line, final_step, scan_step.
  destruct (String.eqb (Py.strip l) disabled_header) eqn:Hh.
  - destruct m; try congruence;
      apply (IH InDisabledSection st); discriminate.
  - destruct m; try congruence.
    + apply (IH Outside st); discriminate.
    + simpl in_disabled_section. simpl negb. cbv iota.
      destruct (Py.startswith "[" (Py.strip l)) eqn:Hb.
      * rewrite run_stopped. reflexivity.
      * destruct (Py.contains "=" (Py.strip l)) eqn:Hc.
        -- simpl negb. cbv iota.
           change (at_state (InDisabledSection, st))
             with (set_in_disabled_section true st).
           rewrite (disabled_assign_effect_entry st _ Hc).
           destruct (effect_entry st (Py.strip l)) as [st'|e]; [| reflexivity].
           apply (IH InDisabledSection st'). discriminate.
        -- unfold effect_entry. rewrite Hc. simpl.
           apply (IH InDisabledSection st). discriminate.
Qed.

Lemma disabled_pass_from_outside (lines : list string) (st : locals) :
  in_disabled_section st = false ->
  disabled_pass lines st
  = (ms ← run final_step lines (Outside, st); Ok (at_state ms)).
Proof.
  intros Hin.
  assert (Hst : st = at_state (Outside, st)).
  { destruct st; simpl in *. subst. reflexivity. }
  rewrite Hst at 1. apply disabled_pass_final_machine. discriminate.
Qed.

(** C3 (as stated): on a theme with a second disabled section, the
    loop and the two-state machine disagree; the loop has stopped at the
    end of the first section and keeps the default base colour, the
    machine has entered the section again and read its colour. *)
Lemma C3_stated_machine_counterexample :
  disabled_pass
    ["[ColorEffects:Disabled]"; "[Colors:Button]";
     "[ColorEffects:Disabled]"; "Color=1,2,3"]
    (initial_locals empty_palette)
  <> stated_pass
       ["[ColorEffects:Disabled]"; "[Colors:Button]";
        "[ColorEffects:Disabled]"; "Color=1,2,3"]
       (initial_locals empty_palette).
Proof.
  intros H.
  assert (Hd : match disabled_pass
                 ["[ColorEffects:Disabled]"; "[Colors:Button]";
                  "[ColorEffects:Disabled]"; "Color=1,2,3"]
                 (initial_locals empty_palette) with
               | Ok st => disabled_color st
               | Raise _ => Invalid
               end = Rgb 128 128 128) by (vm_compute; reflexivity).
  rewrite H in Hd. vm_compute in Hd. discriminate Hd.
Qed.

(** C3 (amended): the first loop is the machine with a final state. It
    is outside until a line is the header, inside the section from then
    on, and stopped for good at the first line of the section that
    begins with a bracket and is not the header: the lines read before
    the section and all the lines after it, a later header included,
    change nothing. *)
Theorem C3_disabled_pass_stops_after_section (lines : list string)
    (st : locals) :
  in_disabled_section st = false ->
  disabled_pass lines st
  = (ms ← run final_step lines (Outside, st); Ok (at_state ms))
  /\ forall pre post : list string,
       lines = (pre ++ post)%list -> scan pre = Stopped ->
       disabled_pass lines st = disabled_pass pre st.
Proof.
  intros Hin.
  pose proof (fun ls => disabled_pass_from_outside ls st Hin) as Heq.
  split; [apply Heq |].
  intros pre post -> Hscan. rewrite (Heq (pre ++ post)%list), (Heq pre).
  rewrite run_app.
  destruct (run final_step pre (Outside, st)) as [[m st']|e] eqn:Hrun;
    [| reflexivity].
  apply run_final_step_scan in Hrun as Hm. fold (scan pre) in Hm.
  rewrite Hscan in Hm. subst m. simpl. rewrite run_stopped. reflexivity.
Qed.

Lemma C3_disabled_pass_stops_after_section_witness :
  disabled_pass
    ["[ColorEffects:Disabled]"; "[Colors:Button]";
     "[ColorEffects:Disabled]"; "Color=1,2,3"]
    (initial_locals empty_palette)
  = disabled_pass ["[ColorEffects:Disabled]"; "[Colors:Button]"]
      (initial_locals empty_palette).
Proof.
  destruct (C3_disabled_pass_stops_after_section
              ["[ColorEffects:Disabled]"; "[Colors:Button]";
               "[ColorEffects:Disabled]"; "Color=1,2,3"]
              (initial_locals empty_palette) eq_refl) as [_ H].
  apply (H ["[ColorEffects:Disabled]"; "[Colors:Button]"]
           ["[ColorEffects:Disabled]"; "Color=1,2,3"]); reflexivity.
Defined.

(** ** Invariants of the loops *)

Lemma for_each_invariant {S A : Type} (P : S -> Prop)
    (body : S -> A -> result (flow S)) :
  (forall s a f, P s -> body s a = Ok f -> P (flow_state f)) ->
  forall items s s', P s -> for_each body items s = Ok s' -> P s'.
Proof.
  intros Hbody. induction items as [|a items IH]; intros s s' Hs; simpl.
  - intros [= <-]. exact Hs.
  - destruct (body s a) as [[s1|s1]|e] eqn:Hb; [| | discriminate].
    + apply IH. exact (Hbody _ _ _ Hs Hb).
    + intros [= <-]. exact (Hbody _ _ _ Hs Hb).
Qed.

Lemma QColor_rgb_wf (r g b : Z) : wf_color (QColor_rgb r g b) = true.
Proof.
  unfold QColor_rgb.
  destruct (in_8bit r && in_8bit g && in_8bit b) eqn:H; [exact H | reflexivity].
Qed.

Lemma QColor_new_wf (r g b : Z) (c : QColor) :
  QColor_new r g b = Ok c -> wf_color c = true.
Proof.
  unfold QColor_new. destruct (in_c_int r && in_c_int g && in_c_int b);
    [| discriminate].
  intros [= <-]. apply QColor_rgb_wf.
Qed.

Lemma apply_color_effect_wf (source effect_base d : QColor) (a : Py.float) :
  apply_color_effect source effect_base a = Ok d -> wf_color d = true.
Proof.
  unfold apply_color_effect. intros H.
  apply bind_inv_Ok in H. destruct H as (r & _ & H).
  apply bind_inv_Ok in H. destruct H as (g & _ & H).
  apply bind_inv_Ok in H. destruct H as (b & _ & H).
  exact (QColor_new_wf _ _ _ _ H).
Qed.

Lemma disabled_line_palette (st : locals) (line : string) (f : flow locals) :
  disabled_line st line = Ok f -> palette (flow_state f) = palette st.
Proof.
  unfold disabled_line.
  destruct (String.eqb _ disabled_header); [intros [= <-]; reflexivity |].
  destruct (negb (in_disabled_section st)); [intros [= <-]; reflexivity |].
  destruct (Py.startswith "[" _); [intros [= <-]; reflexivity |].
  destruct (negb (Py.contains "=" _)); [intros [= <-]; reflexivity |].
  destruct (key_value _) as [[key value]|e]; [| discriminate]. simpl.
  unfold disabled_assign.
  destruct (String.eqb key "Color").
  - destruct (unpack_rgb value) as [[[r g] b]|e]; [| discriminate]. simpl.
    destruct (QColor_new r g b); [| discriminate]. intros [= <-]. reflexivity.
  - destruct (String.eqb key "ContrastAmount"); [| intros [= <-]; reflexivity].
    destruct (Py.float_of_str value); [| discriminate].
    intros [= <-]. reflexivity.
Qed.

Lemma disabled_pass_palette (lines : list string) (st st' : locals) :
  disabled_pass lines st = Ok st' -> palette st' = palette st.
Proof.
  unfold disabled_pass.
  apply (for_each_invariant (fun s => palette s = palette st)); [| reflexivity].
  intros s a f Hs Hb. rewrite (disabled_line_palette _ _ _ Hb). exact Hs.
Qed.

(** What a recognised line of the second loop does, when it succeeds. *)
Lemma role_assign_inv (st : locals) (key value : string) (f : flow locals) :
  role_assign st key value = Ok f ->
  match role_of (section st) key with
  | None => f = Continue st
  | Some role =>
      exists r g b c d,
        unpack_rgb value = Ok (r, g, b) /\ QColor_new r g b = Ok c
        /\ apply_color_effect c (disabled_color st)
             (disabled_contrast_amount st) = Ok d
        /\ f = Continue
                 (Locals (setColor (setColor (setColor (palette st) Normal role c)
                                             Inactive role c) Disabled role d)
                         d (disabled_contrast_amount st)
                         (in_disabled_section st) (section st))
  end.
Proof.
  unfold role_assign. destruct (role_of (section st) key) as [role|];
    [| intros [= <-]; reflexivity].
  destruct (unpack_rgb value) as [[[r g] b]|e]; [| discriminate]. simpl.
  destruct (QColor_new r g b) as [c|e] eqn:Hc; [| discriminate]. simpl.
  destruct (apply_color_effect c (disabled_color st) (disabled_contrast_amount st))
    as [d|e] eqn:Hd; [| discriminate]. simpl.
  intros [= <-]. exists r, g, b, c, d. auto.
Qed.

Lemma role_line_inv (st : locals) (line : string) (f : flow locals) :
  role_line st line = Ok f ->
  (f = Continue (set_section (section_step (section st) line) st)
   /\ role_of_line (section st) line = None)
  \/ exists key value role,
       key_value (Py.strip line) = Ok (key, value)
       /\ role_of_line (section st) line = Some role
       /\ role_of (section st) key = Some role
       /\ section_step (section st) line = section st
       /\ role_assign st key value = Ok f.
Proof.
  unfold role_line, role_of_line, section_step.
  destruct (Py.startswith "[" _ && Py.endswith "]" _).
  { intros [= <-]. left. auto. }
  destruct (Py.contains "=" _).
  2:{ intros [= <-]. left. destruct st; auto. }
  destruct (key_value _) as [[key value]|e]; [| discriminate]. simpl.
  intros H. destruct (role_of (section st) key) as [role|] eqn:Hr.
  - right. exists key, value, role. auto.
  - left. unfold role_assign in H. rewrite Hr in H. injection H as <-.
    destruct st; auto.
Qed.

Lemma setColor_wf (p : QPalette) (g : ColorGroup) (r : ColorRole) (c : QColor) :
  wf_palette p -> wf_color c = true -> wf_palette (setColor p g r c).
Proof.
  intros Hp Hc g' r'. unfold setColor. destruct (decide _); [exact Hc | apply Hp].
Qed.

Lemma setColor_all_wf (p : QPalette) (r : ColorRole) (c : QColor) :
  wf_palette p -> wf_color c = true -> wf_palette (setColor_all p r c).
Proof.
  intros Hp Hc g' r'. unfold setColor_all.
  destruct (decide _); [exact Hc | apply Hp].
Qed.

Lemma role_line_wf (st : locals) (line : string) (f : flow locals) :
  wf_palette (palette st) -> role_line st line = Ok f ->
  wf_palette (palette (flow_state f)).
Proof.
  intros Hp H. apply role_line_inv in H.
  destruct H as [[-> _] | (key & value & role & _ & _ & Hr & _ & H)];
    [exact Hp |].
  apply role_assign_inv in H. rewrite Hr in H.
  destruct H as (r & g & b & c & d & _ & Hc & Hd & ->). simpl.
  apply QColor_new_wf in Hc. apply apply_color_effect_wf in Hd.
  repeat apply setColor_wf; assumption.
Qed.

Lemma parse_theme_wf (new_palette : QPalette) (content : string) (st : locals) :
  wf_palette new_palette -> parse_theme new_palette content = Ok st ->
  wf_palette (palette st).
Proof.
  intros Hp H. unfold parse_theme in H.
  apply bind_inv_Ok in H. destruct H as (st1 & H1 & H2).
  apply disabled_pass_palette in H1. simpl in H1.
  unfold role_pass in H2. revert H2.
  apply (for_each_invariant (fun s => wf_palette (palette s))).
  - intros s a f. apply role_line_wf.
  - rewrite H1. exact Hp.
Qed.

(** ** The fallback pass *)

Lemma setColor_all_eq (p : QPalette) (r : ColorRole) (c : QColor)
    (g : ColorGroup) :
  setColor_all p r c g r = c.
Proof. unfold setColor_all. destruct (decide (r = r)); congruence. Qed.

Lemma setColor_all_ne (p : QPalette) (r r' : ColorRole) (c : QColor)
    (g : ColorGroup) :
  r' <> r -> setColor_all p r c g r' = p g r'.
Proof. intros H. unfold setColor_all. destruct (decide (r' = r)); congruence. Qed.

Lemma wf_color_channels (c : QColor) :
  wf_color c = true ->
  in_8bit (red c) = true /\ in_8bit (green c) = true /\ in_8bit (blue c) = true.
Proof.
  destruct c as [|r g b]; simpl; [auto |].
  intros H. apply andb_prop in H. destruct H as [H Hb].
  apply andb_prop in H. destruct H as [Hr Hg]. auto.
Qed.

Lemma in_8bit_average (x y : Z) :
  in_8bit x = true -> in_8bit y = true -> in_8bit ((x + y) / 2) = true.
Proof.
  unfold in_8bit. intros Hx Hy.
  assert (0 <= (x + y) / 2) by (apply Z.div_pos; lia).
  assert ((x + y) / 2 <= 255) by (apply Z.div_le_upper_bound; lia).
  lia.
Qed.

Lemma average_new (a b : QColor) :
  wf_color a = true -> wf_color b = true ->
  QColor_new ((red a + red b) / 2) ((green a + green b) / 2)
             ((blue a + blue b) / 2) = Ok (average a b).
Proof.
  intros Ha Hb.
  destruct (wf_color_channels a Ha) as (Har & Hag & Hab).
  destruct (wf_color_channels b Hb) as (Hbr & Hbg & Hbb).
  pose proof (in_8bit_average _ _ Har Hbr) as Hr.
  pose proof (in_8bit_average _ _ Hag Hbg) as Hg.
  pose proof (in_8bit_average _ _ Hab Hbb) as Hb'.
  rewrite QColor_new_8bit by assumption.
  unfold average, QColor_rgb. rewrite Hr, Hg, Hb'. reflexivity.
Qed.

Ltac palette_simpl :=
  repeat (rewrite setColor_all_eq
          || rewrite setColor_all_ne by discriminate).

Ltac palette_wf :=
  repeat (apply setColor_all_wf; [| solve [auto using QColor_rgb_wf]]); auto.

Section Fallback.

Variables lighter darker : QColor -> Z -> QColor.
Hypothesis lighter_wf : forall c f, wf_color (lighter c f) = true.
Hypothesis darker_wf : forall c f, wf_color (darker c f) = true.

(** The fallback pass succeeds on the colours that Qt has; it leaves a
    valid role as it is, and gives a missing one its derived colour,
    in every group. *)
Lemma fallback_spec (main : QPalette) :
  wf_palette main ->
  exists p,
    fallback lighter darker main = Ok p
    /\ (forall role, In role fallback_roles ->
        isValid (color main Normal role) = true ->
        forall g, color p g role = color main g role)
    /\ (forall role, ~ In role fallback_roles ->
        forall g, color p g role = color main g role)
    /\ (isValid (color main Normal Light) = false ->
        forall g, color p g Light = lighter (color main Normal Button) 150)
    /\ (isValid (color main Normal Dark) = false ->
        forall g, color p g Dark = darker (color main Normal Window) 150)
    /\ (isValid (color main Normal Midlight) = false ->
        forall g, color p g Midlight
                  = average (color p Normal Light) (color main Normal Button))
    /\ (isValid (color main Normal Mid) = false ->
        forall g, color p g Mid
                  = average (color p Normal Dark) (color main Normal Button))
    /\ (isValid (color main Normal Shadow) = false ->
        forall g, color p g Shadow = Rgb 0 0 0).
Proof.
  intros Hwf. unfold fallback, color_current, color, fallback_roles.
  destruct (isValid (main Normal Light)) eqn:HL; simpl negb; cbv iota;
    rewrite bind_Ok; palette_simpl;
  destruct (isValid (main Normal Dark)) eqn:HD; simpl negb; cbv iota;
    rewrite bind_Ok; palette_simpl;
  (destruct (isValid (main Normal Midlight)) eqn:HM; simpl negb; cbv iota;
    [| rewrite average_new by (first [apply lighter_wf | apply Hwf])];
    rewrite !bind_Ok; palette_simpl);
  (destruct (isValid (main Normal Mid)) eqn:HI; simpl negb; cbv iota;
    [| rewrite average_new by (first [apply darker_wf | apply Hwf])];
    rewrite !bind_Ok; palette_simpl);
  (destruct (isValid (main Normal Shadow)) eqn:HS; simpl negb; cbv iota;
    [| rewrite (QColor_new_8bit 0 0 0) by reflexivity; rewrite bind_Ok]);
  (eexists; split; [reflexivity |]);
  (split;
    [intros role Hrole Hvalid g; simpl in Hrole;
     destruct Hrole as [<- | [<- | [<- | [<- | [<- | []]]]]];
     palette_simpl; congruence |]);
  (split;
    [intros role Hrole g; simpl in Hrole;
     repeat (rewrite setColor_all_ne by (intros ->; tauto)); reflexivity |]);
  repeat split; intros Hinv g; try congruence; palette_simpl; reflexivity.
Qed.

End Fallback.

(** ** Malformed colour values *)

(** [int] on some texts: the white space it skips, the separators that
    it does not skip, underscores, and the bound on the digits. *)
Lemma int_examples :
  Py.int " 12 " = Ok 12
  /\ Py.int (String "160" "7") = Ok 7
  /\ Py.int "1_0" = Ok 10
  /\ (exists what, Py.int (String "028" "2") = Raise (ValueError what))
  /\ (exists what, Py.int "1__0" = Raise (ValueError what))
  /\ (exists what,
        Py.int (string_of_list_ascii (repeat "1"%char 4301))
        = Raise (ValueError what)).
Proof.
  repeat split; try (vm_compute; reflexivity);
    eexists; vm_compute; reflexivity.
Qed.

Lemma unpack_rgb_three_integers (value : string) :
  match three_integers value with
  | Some rgb => unpack_rgb value = Ok rgb
  | None => exists e, unpack_rgb value = Raise e
  end.
Proof.
  unfold three_integers, unpack_rgb.
  destruct (Py.split "," value) as [|s1 [|s2 [|s3 [|s4 rest]]]]; eauto.
  - destruct (Py.int s1); simpl; eauto.
  - destruct (Py.int s1); simpl; eauto. destruct (Py.int s2); simpl; eauto.
  - destruct (Py.int s1); simpl; eauto. destruct (Py.int s2); simpl; eauto.
    destruct (Py.int s3); simpl; eauto.
  - destruct (Py.int s1); simpl; eauto. destruct (Py.int s2); simpl; eauto.
    destruct (Py.int s3); simpl; eauto. destruct (Py.int s4); simpl; eauto.
Qed.

Lemma disabled_line_section (st : locals) (line : string) (f : flow locals) :
  disabled_line st line = Ok f -> section (flow_state f) = section st.
Proof.
  unfold disabled_line.
  destruct (String.eqb _ disabled_header); [intros [= <-]; reflexivity |].
  destruct (negb (in_disabled_section st)); [intros [= <-]; reflexivity |].
  destruct (Py.startswith "[" _); [intros [= <-]; reflexivity |].
  destruct (negb (Py.contains "=" _)); [intros [= <-]; reflexivity |].
  destruct (key_value _) as [[key value]|e]; [| discriminate]. simpl.
  unfold disabled_assign.
  destruct (String.eqb key "Color").
  - destruct (unpack_rgb value) as [[[r g] b]|e]; [| discriminate]. simpl.
    destruct (QColor_new r g b); [| discriminate]. intros [= <-]. reflexivity.
  - destruct (String.eqb key "ContrastAmount"); [| intros [= <-]; reflexivity].
    destruct (Py.float_of_str value); [| discriminate].
    intros [= <-]. reflexivity.
Qed.

Lemma disabled_pass_section (lines : list string) (st st' : locals) :
  disabled_pass lines st = Ok st' -> section st' = section st.
Proof.
  unfold disabled_pass.
  apply (for_each_invariant (fun s => section s = section st)); [| reflexivity].
  intros s a f Hs Hb. rewrite (disabled_line_section _ _ _ Hb). exact Hs.
Qed.

(** The second loop has no [break], and tracks the section. *)
Lemma role_line_continue (st : locals) (line : string) (f : flow locals) :
  role_line st line = Ok f ->
  exists st', f = Continue st'
              /\ section st' = section_step (section st) line.
Proof.
  intros H. apply role_line_inv in H.
  destruct H as [[-> _] | (key & value & role & _ & _ & Hr & Hs & H)].
  - eexists. split; reflexivity.
  - apply role_assign_inv in H. rewrite Hr in H.
    destruct H as (r & g & b & c & d & _ & _ & _ & ->).
    eexists. split; [reflexivity |]. simpl. congruence.
Qed.







(** ** Themes without a disabled section *)

Lemma disabled_pass_no_header (lines : list string) (st : locals) :
  in_disabled_section st = false ->
  has_disabled_section lines = false ->
  disabled_pass lines st = Ok st.
Proof.
  intros Hin. unfold disabled_pass, has_disabled_section.
  induction lines as [|l lines IH]; [reflexivity |].
  simpl. intros Hall. apply orb_false_elim in Hall. destruct Hall as [E Hall].
  unfold disabled_line. rewrite E, Hin. simpl. exact (IH Hall).
Qed.

Lemma apply_color_effect_rgb8 (source effect_base d : QColor) (a : Py.float) :
  apply_color_effect source effect_base a = Ok d -> is_rgb8 d = true.
Proof.
  unfold apply_color_effect, effect_channel. intros H.
  apply bind_inv_Ok in H. destruct H as (r & Hr & H).
  apply bind_inv_Ok in H. destruct H as (g & Hg & H).
  apply bind_inv_Ok in H. destruct H as (b & Hb & H).
  apply bind_inv_Ok in Hr. destruct Hr as (vr & _ & [= <-]).
  apply bind_inv_Ok in Hg. destruct Hg as (vg & _ & [= <-]).
  apply bind_inv_Ok in Hb. destruct Hb as (vb & _ & [= <-]).
  rewrite QColor_new_8bit in H by apply clamp_8bit_in_8bit.
  injection H as <-. simpl. rewrite !clamp_8bit_in_8bit. reflexivity.
Qed.

Lemma apply_color_effect_at_0 (source effect_base : QColor) :
  is_rgb8 source = true -> is_rgb8 effect_base = true ->
  apply_color_effect source effect_base amount_0 = Ok source.
Proof.
  intros Hs He.
  destruct (is_rgb8_inv _ Hs) as (sr & sg & sb & -> & Hsr & Hsg & Hsb).
  destruct (is_rgb8_inv _ He) as (er & eg & eb & -> & Her & Heg & Heb).
  destruct (effect_channel_bounds sr er Hsr Her) as [Hr0 _].
  destruct (effect_channel_bounds sg eg Hsg Heg) as [Hg0 _].
  destruct (effect_channel_bounds sb eb Hsb Heb) as [Hb0 _].
  unfold apply_color_effect; simpl red; simpl green; simpl blue.
  rewrite Hr0, Hg0, Hb0. simpl. apply QColor_new_8bit; assumption.
Qed.

Lemma QColor_new_valid (r g b : Z) (c : QColor) :
  QColor_new r g b = Ok c -> isValid c = true -> is_rgb8 c = true.
Proof.
  intros H Hv. apply QColor_new_wf in H. destruct c; [discriminate | exact H].
Qed.

Lemma setColor_eq (p : QPalette) (g : ColorGroup) (r : ColorRole) (c : QColor) :
  setColor p g r c g r = c.
Proof. unfold setColor. destruct (decide _) as [|H]; [reflexivity | tauto]. Qed.

Lemma setColor_ne_role (p : QPalette) (g g' : ColorGroup) (r r' : ColorRole)
    (c : QColor) :
  r' <> r -> setColor p g r c g' r' = p g' r'.
Proof. intros H. unfold setColor. destruct (decide _); [tauto | reflexivity]. Qed.

Lemma setColor_ne_group (p : QPalette) (g g' : ColorGroup) (r r' : ColorRole)
    (c : QColor) :
  g' <> g -> setColor p g r c g' r' = p g' r'.
Proof. intros H. unfold setColor. destruct (decide _); [tauto | reflexivity]. Qed.

(** With the amount 0.0, a role set by the second loop has its Normal
    colour as Disabled colour, when that colour is valid. *)
Lemma role_pass_at_0 (lines : list string) (st st' : locals) (role : ColorRole) :
  disabled_contrast_amount st = amount_0 ->
  is_rgb8 (disabled_color st) = true ->
  role_pass lines st = Ok st' ->
  In role (assigned_roles lines (section st))
  \/ (isValid (palette st Normal role) = true ->
      palette st Disabled role = palette st Normal role) ->
  isValid (palette st' Normal role) = true ->
  palette st' Disabled role = palette st' Normal role.
Proof.
  unfold role_pass. revert st.
  induction lines as [|l lines IH]; intros st Ha Hd Hrun Hrole.
  - injection Hrun as <-. destruct Hrole as [[] | H]. exact H.
  - simpl in Hrun. destruct (role_line st l) as [f|e] eqn:Hl; [| discriminate].
    destruct (role_line_continue _ _ _ Hl) as (st1 & -> & Hsec).
    apply role_line_inv in Hl. simpl in Hrole.
    destruct Hl as [[[= ->] Hnone]
                   | (key & value & role0 & _ & Hsome & Hr & _ & Hassign)].
    + rewrite Hnone in Hrole. apply (fun A B => IH _ A B Hrun); assumption.
    + rewrite Hsome in Hrole.
      apply role_assign_inv in Hassign. rewrite Hr in Hassign.
      destruct Hassign as (r & g & b & c & d & _ & Hc & He & [= ->]).
      rewrite Ha in He.
      apply (fun A B => IH _ A B Hrun);
        [exact Ha | exact (apply_color_effect_rgb8 _ _ _ _ He) |].
      simpl section in *. simpl palette. rewrite <- Hsec in Hrole.
      destruct (decide (role = role0)) as [-> | Hne].
      * right. rewrite setColor_eq.
        rewrite setColor_ne_group by discriminate.
        rewrite setColor_ne_group by discriminate.
        rewrite setColor_eq. intros Hvalid.
        rewrite (apply_color_effect_at_0 c (disabled_color st)
                   (QColor_new_valid _ _ _ _ Hc Hvalid) Hd) in He.
        congruence.
      * destruct Hrole as [[Heq | Hin] | Hgood];
          [congruence | left; exact Hin | right].
        rewrite !setColor_ne_role by exact Hne. exact Hgood.
Qed.

Lemma fallback_other_roles (lighter darker : QColor -> Z -> QColor)
    (main p : QPalette) (role : ColorRole) (g : ColorGroup) :
  fallback lighter darker main = Ok p ->
  ~ In role fallback_roles -> p g role = main g role.
Proof.
  unfold fallback, color_current, fallback_roles. intros H Hrole.
  simpl in Hrole.
  apply bind_inv_Ok in H. destruct H as (p1 & H1 & H).
  apply bind_inv_Ok in H. destruct H as (p2 & H2 & H).
  apply bind_inv_Ok in H. destruct H as (p3 & H3 & H).
  apply bind_inv_Ok in H. destruct H as (p4 & H4 & H).
  assert (E1 : p1 g role = main g role).
  { destruct (negb _) in H1; injection H1 as <-; [| reflexivity].
    apply setColor_all_ne. intros ->. tauto. }
  assert (E2 : p2 g role = p1 g role).
  { destruct (negb _) in H2; injection H2 as <-; [| reflexivity].
    apply setColor_all_ne. intros ->. tauto. }
  assert (E3 : p3 g role = p2 g role).
  { destruct (negb _) in H3; [| injection H3 as <-; reflexivity].
    apply bind_inv_Ok in H3. destruct H3 as (c & _ & [= <-]).
    apply setColor_all_ne. intros ->. tauto. }
  assert (E4 : p4 g role = p3 g role).
  { destruct (negb _) in H4; [| injection H4 as <-; reflexivity].
    apply bind_inv_Ok in H4. destruct H4 as (c & _ & [= <-]).
    apply setColor_all_ne. intros ->. tauto. }
  assert (E5 : p g role = p4 g role).
  { destruct (negb _) in H; [| injection H as <-; reflexivity].
    apply bind_inv_Ok in H. destruct H as (c & _ & [= <-]).
    apply setColor_all_ne. intros ->. tauto. }
  congruence.
Qed.

(** No key of the mapping stands for a role of the fallback pass. *)
Lemma role_of_not_fallback (sec : option string) (key : string)
    (role : ColorRole) :
  role_of sec key = Some role -> ~ In role fallback_roles.
Proof.
  unfold role_of. destruct sec as [s|].
  2:{ change (None ≫= (section_role_mapping !!.)) with (@None (gmap string ColorRole)).
      change (default ∅ None) with (∅ : gmap string ColorRole).
      rewrite lookup_empty. discriminate. }
  change (Some s ≫= (section_role_mapping !!.)) with (section_role_mapping !! s).
  destruct (section_role_mapping !! s) as [m|] eqn:Hs.
  2:{ change (default ∅ None) with (∅ : gmap string ColorRole).
      rewrite lookup_empty. discriminate. }
  change (default ∅ (Some m)) with m. intros Hk.
  unfold section_role_mapping in Hs. apply elem_of_list_to_map_2 in Hs.
  repeat (apply elem_of_cons in Hs; destruct Hs as [Hs | Hs]);
    try (apply elem_of_nil in Hs; contradiction);
    injection Hs as _ ->;
    repeat (apply lookup_insert_Some in Hk; destruct Hk as [[_ <-] | [_ Hk]]);
    try (rewrite lookup_empty in Hk; discriminate Hk);
    unfold fallback_roles; simpl; intuition discriminate.
Qed.

Lemma assigned_roles_not_fallback (lines : list string) (sec : option string)
    (role : ColorRole) :
  In role (assigned_roles lines sec) -> ~ In role fallback_roles.
Proof.
  revert sec. induction lines as [|l lines IH]; intros sec; simpl; [tauto |].
  destruct (role_of_line sec l) as [role0|] eqn:Hl; [| apply IH].
  intros [<- | Hin]; [| exact (IH _ Hin)].
  unfold role_of_line in Hl.
  destruct (Py.startswith "[" _ && Py.endswith "]" _); [discriminate |].
  destruct (Py.contains "=" _); [| discriminate].
  destruct (key_value _) as [[key value]|e]; [| discriminate].
  exact (role_of_not_fallback _ _ _ Hl).
Qed.

(** C5 (as stated): a theme without a disabled section that gives the
    Button role a channel above 255. The role is set by the second loop;
    its Normal colour is the invalid colour and its Disabled colour is
    black. *)
Lemma C5_out_of_range_counterexample :
  exists p,
    sample_load "out_of_range.colors" = Ok p
    /\ has_disabled_section (Py.split "010" out_of_range_theme) = false
    /\ In Button (assigned_roles (Py.split "010" out_of_range_theme) None)
    /\ color p Normal Button = Invalid
    /\ color p Disabled Button = Rgb 0 0 0
    /\ color p Disabled Button <> color p Normal Button.
Proof.
  eexists. split; [vm_compute; reflexivity |].
  split; [vm_compute; reflexivity |].
  split; [vm_compute; auto |].
  split; [reflexivity |]. split; [reflexivity |]. discriminate.
Qed.

(** C5 (amended): when no line of the theme is the header of the
    disabled section, the first loop leaves the default parameters, gray
    (128,128,128) and amount 0.0, and every role set by the second loop
    whose Normal colour is valid, that is, given with its three channels
    in 0-255, has that colour as its Disabled colour. *)
Theorem C5_no_disabled_section_disabled_is_normal
    (read_theme : string -> option string) (new_palette : QPalette)
    (lighter darker : QColor -> Z -> QColor) (theme content : string) :
  read_theme theme = Some content ->
  has_disabled_section (Py.split "010" content) = false ->
  (exists st,
     disabled_pass (Py.split "010" content) (initial_locals new_palette) = Ok st
     /\ disabled_color st = Rgb 128 128 128
     /\ disabled_contrast_amount st = amount_0)
  /\ forall p role,
       load_color_palette read_theme new_palette lighter darker theme = Ok p ->
       In role (assigned_roles (Py.split "010" content) None) ->
       isValid (color p Normal role) = true ->
       color p Disabled role = color p Normal role.
Proof.
  intros Hread Hno.
  pose proof (disabled_pass_no_header _ (initial_locals new_palette)
                eq_refl Hno) as Hd.
  split; [exists (initial_locals new_palette); auto |].
  intros p role Hload Hrole Hvalid.
  unfold load_color_palette in Hload. rewrite Hread in Hload.
  apply bind_inv_Ok in Hload. destruct Hload as (st & Hparse & Hfb).
  unfold parse_theme in Hparse. rewrite Hd in Hparse. rewrite bind_Ok in Hparse.
  pose proof (assigned_roles_not_fallback _ _ _ Hrole) as Hnf.
  unfold color in *.
  rewrite !(fallback_other_roles _ _ _ _ _ _ Hfb Hnf) in *.
  apply (role_pass_at_0 _ (initial_locals new_palette) st role
           eq_refl eq_refl Hparse);
    [left; exact Hrole | exact Hvalid].
Qed.

Lemma C5_no_disabled_section_disabled_is_normal_witness :
  exists p,
    load_color_palette sample_themes empty_palette sample_lighter sample_darker
      "plain.colors" = Ok p
    /\ color p Disabled Button = color p Normal Button.
Proof.
  pose (p := match load_color_palette sample_themes empty_palette
                     sample_lighter sample_darker "plain.colors" with
             | Ok p => p
             | Raise _ => empty_palette
             end).
  assert (Hp : load_color_palette sample_themes empty_palette
                 sample_lighter sample_darker "plain.colors" = Ok p)
    by (vm_compute; reflexivity).
  exists p. split; [exact Hp |].
  assert (Hno : has_disabled_section (Py.split "010" plain_theme) = false)
    by (vm_compute; reflexivity).
  assert (Hin : In Button (assigned_roles (Py.split "010" plain_theme) None))
    by (vm_compute; auto).
  assert (Hvalid : isValid (color p Normal Button) = true)
    by (vm_compute; reflexivity).
  destruct (C5_no_disabled_section_disabled_is_normal
              sample_themes empty_palette sample_lighter sample_darker
              "plain.colors" plain_theme eq_refl Hno) as [_ H].
  exact (H p Button Hp Hin Hvalid).
Defined.

(** ** The effect base colour across roles *)

(** C1: on a theme with a disabled section of amount 0.5 and base
    (100,100,100) and two roles, Button (200,200,200) and ButtonText
    (0,0,0), the Disabled colour of Button is the blend with the base,
    (150,150,150), but the Disabled colour of ButtonText is the blend
    with that colour, (75,75,75), and not the blend with the base,
    (50,50,50): the second loop stores each blend in the variable that
    holds the base colour. *)
Lemma C1_effect_base_is_overwritten :
  exists st1 st2 p half,
    disabled_pass (Py.split "010" effect_theme) (initial_locals empty_palette)
    = Ok st1
    /\ disabled_color st1 = Rgb 100 100 100
    /\ disabled_contrast_amount st1 = half
    /\ Py.float_of_str "0.5" = Ok half
    /\ role_pass (Py.split "010" effect_theme) st1 = Ok st2
    /\ disabled_color st2 = Rgb 75 75 75
    /\ sample_load "effect.colors" = Ok p
    /\ color p Normal Button = Rgb 200 200 200
    /\ color p Disabled Button = Rgb 150 150 150
    /\ color p Normal ButtonText = Rgb 0 0 0
    /\ color p Disabled ButtonText = Rgb 75 75 75
    /\ apply_color_effect (Rgb 0 0 0) (Rgb 100 100 100) half
       = Ok (Rgb 50 50 50).
Proof.
  do 4 eexists.
  split; [vm_compute; reflexivity |].
  split; [reflexivity |]. split; [reflexivity |].
  split; [vm_compute; reflexivity |].
  split; [vm_compute; reflexivity |].
  split; [reflexivity |].
  split; [vm_compute; reflexivity |].
  repeat split; vm_compute; reflexivity.
Qed.

(** ** Rounding errors of the float operations *)

Local Open Scope Z_scope.


Lemma bpow_pos (e : Z) : (0 < bpow e)%R.
Proof. apply powerRZ_lt. lra. Qed.

Lemma bpow_add (a b : Z) : bpow (a + b) = (bpow a * bpow b)%R.
Proof. apply powerRZ_add. lra. Qed.

Lemma bpow_IZR (n : Z) : 0 <= n -> bpow n = IZR (2 ^ n).
Proof.
  intros Hn. unfold bpow.
  rewrite <- (Z2Nat.id n Hn) at 2. rewrite <- pow_IZR.
  rewrite pow_powerRZ, Z2Nat.id by exact Hn. reflexivity.
Qed.

Lemma bpow_ge_1 (n : Z) : 0 <= n -> (1 <= bpow n)%R.
Proof.
  intros Hn. rewrite bpow_IZR by exact Hn. apply IZR_le.
  pose proof (Z.pow_pos_nonneg 2 n ltac:(lia) Hn). lia.
Qed.

Lemma bpow_le (a b : Z) : a <= b -> (bpow a <= bpow b)%R.
Proof.
  intros H. replace b with (a + (b - a)) by lia. rewrite bpow_add.
  pose proof (bpow_pos a). pose proof (bpow_ge_1 (b - a) ltac:(lia)). nra.
Qed.

Lemma bpow_lt_inv (a b : Z) : (bpow a < bpow b)%R -> a < b.
Proof.
  intros H. destruct (Z_lt_le_dec a b) as [|Hle]; [assumption |].
  apply bpow_le in Hle. lra.
Qed.

Lemma digits2_pos_size (m : positive) : digits2_pos m = Pos.size m.
Proof. induction m; simpl; congruence. Qed.

Lemma digits2_pos_bounds (m : positive) :
  2 ^ (Z.pos (digits2_pos m) - 1) <= Z.pos m < 2 ^ Z.pos (digits2_pos m).
Proof.
  rewrite digits2_pos_size.
  pose proof (Pos.size_gt m) as Hgt. pose proof (Pos.size_le m) as Hle.
  apply Pos2Z.pos_lt_pos in Hgt. apply Pos2Z.pos_le_pos in Hle.
  rewrite Pos2Z.inj_pow in Hgt, Hle.
  replace (Z.pos (Pos.size m)) with (Z.pos (Pos.size m) - 1 + 1) in Hle at 1 by lia.
  rewrite Z.pow_add_r in Hle by lia. change (2 ^ 1) with 2 in Hle.
  change (Z.pos m~0) with (2 * Z.pos m) in Hle. lia.
Qed.

Lemma shr_1_m (mrs : shr_record) :
  0 <= shr_m mrs -> shr_m (shr_1 mrs) = Z.div2 (shr_m mrs).
Proof.
  destruct mrs as [m r s]. simpl. destruct m as [|[p|p|]|p]; simpl; try reflexivity; lia.
Qed.

Lemma iter_pos_shr_1_m (p : positive) (mrs : shr_record) :
  0 <= shr_m mrs ->
  shr_m (SpecFloat.iter_pos shr_1 p mrs) = Z.shiftr (shr_m mrs) (Z.pos p).
Proof.
  revert mrs. induction p as [p IH|p IH|]; intros mrs Hm; simpl SpecFloat.iter_pos.
  - assert (H1 : 0 <= shr_m (shr_1 mrs)).
    { rewrite shr_1_m by exact Hm. apply Z.div2_nonneg. exact Hm. }
    assert (H2 : 0 <= shr_m (SpecFloat.iter_pos shr_1 p (shr_1 mrs))).
    { rewrite IH by exact H1. apply Z.shiftr_nonneg. exact H1. }
    rewrite IH by exact H2. rewrite IH by exact H1. rewrite shr_1_m by exact Hm.
    rewrite Z.div2_spec. rewrite !Z.shiftr_shiftr by lia. f_equal. lia.
  - assert (H2 : 0 <= shr_m (SpecFloat.iter_pos shr_1 p mrs)).
    { rewrite IH by exact Hm. apply Z.shiftr_nonneg. exact Hm. }
    rewrite IH by exact H2. rewrite IH by exact Hm.
    rewrite Z.shiftr_shiftr by lia. f_equal. lia.
  - rewrite shr_1_m by exact Hm. apply Z.div2_spec.
Qed.

(** What [shr_fexp] does to a natural number [m] at exponent [e]: the
    mantissa is divided by a power of two and the exponent raised by as
    much, or nothing changes. *)
Lemma shr_fexp_cases (m : Z) (e : Z) (l : location) :
  0 <= m ->
  let r := shr_fexp Py.prec Py.emax m e l in
  let e' := fexp Py.prec Py.emax (Zdigits2 m + e) in
  (e' <= e /\ shr_m (fst r) = m /\ snd r = e
   /\ fst r = shr_record_of_loc m l)
  \/ (e < e' /\ shr_m (fst r) = m / 2 ^ (e' - e) /\ snd r = e').
Proof.
  intros Hm r e'. subst r. unfold shr_fexp, shr. fold e'.
  assert (Hrec : shr_m (shr_record_of_loc m l) = m)
    by (destruct l as [|[]]; reflexivity).
  destruct (e' - e) as [|p|p] eqn:Hn.
  - left. simpl. repeat split; try assumption; lia.
  - right. simpl. rewrite iter_pos_shr_1_m by (rewrite Hrec; exact Hm).
    rewrite Hrec, Z.shiftr_div_pow2 by lia. repeat split; lia.
  - left. simpl. repeat split; try assumption; lia.
Qed.

Lemma round_nearest_even_bounds (m : Z) (l : location) :
  m <= round_nearest_even m l <= m + 1.
Proof.
  unfold round_nearest_even. destruct l as [|[]]; try lia.
  destruct (Z.even m); lia.
Qed.

Lemma Zdigits2_bounds (m : Z) :
  0 < m -> 2 ^ (Zdigits2 m - 1) <= m.
Proof.
  destruct m as [|p|p]; try lia. intros _. simpl Zdigits2.
  apply digits2_pos_bounds.
Qed.

Lemma fexp_binary64 (e : Z) :
  fexp Py.prec Py.emax e = Z.max (e - 53) (-1074).
Proof. reflexivity. Qed.

Lemma Zdigits2_pos (m : Z) : 0 < m -> 0 < Zdigits2 m.
Proof. destruct m; simpl; lia. Qed.

Lemma digits_exponent_bound (m e k : Z) :
  0 < m -> (IZR m * bpow e < bpow k)%R -> Zdigits2 m + e <= k.
Proof.
  intros Hm Hv. pose proof (Zdigits2_bounds m Hm) as Hd.
  pose proof (Zdigits2_pos m Hm) as Hp.
  apply IZR_le in Hd. rewrite <- bpow_IZR in Hd by lia.
  assert (H : (bpow (Zdigits2 m - 1 + e) < bpow k)%R).
  { rewrite bpow_add. pose proof (bpow_pos e). nra. }
  apply bpow_lt_inv in H. lia.
Qed.

Lemma shr_fexp_value (m e : Z) (l : location) :
  0 <= m ->
  let r := shr_fexp Py.prec Py.emax m e l in
  let m' := shr_m (fst r) in
  let e' := snd r in
  0 <= m'
  /\ (IZR m' * bpow e' <= IZR m * bpow e < (IZR m' + 1) * bpow e')%R
  /\ ((fexp Py.prec Py.emax (Zdigits2 m + e) <= e
       /\ e' = e /\ m' = m /\ fst r = shr_record_of_loc m l)
      \/ (e < e' /\ e' = fexp Py.prec Py.emax (Zdigits2 m + e))).
Proof.
  intros Hm r m' e'. subst m' e'.
  destruct (shr_fexp_cases m e l Hm) as [(Hle & Hm' & He' & Hr) | (Hlt & Hm' & He')];
    fold r in Hm', He' |- *.
  - fold r in Hr. rewrite Hm', He'. split; [exact Hm |].
    split; [| left; auto]. pose proof (bpow_pos e). nra.
  - rewrite Hm', He'.
    set (n := fexp Py.prec Py.emax (Zdigits2 m + e) - e) in *.
    assert (Hn : 0 < n) by (unfold n; lia).
    assert (Hp : 0 < 2 ^ n) by (apply Z.pow_pos_nonneg; lia).
    pose proof (Z.div_mod m (2 ^ n) ltac:(lia)) as Hdm.
    pose proof (Z.mod_pos_bound m (2 ^ n) Hp) as Hmod.
    assert (Hq : 0 <= m / 2 ^ n) by (apply Z.div_pos; lia).
    split; [exact Hq |]. split; [| right; split; [lia | reflexivity]].
    replace (fexp Py.prec Py.emax (Zdigits2 m + e)) with (e + n) by (unfold n; lia).
    rewrite bpow_add, (bpow_IZR n) by lia.
    pose proof (bpow_pos e) as He.
    assert (Hm1 : (IZR m = IZR (2 ^ n) * IZR (m / 2 ^ n) + IZR (m mod 2 ^ n))%R).
    { rewrite <- mult_IZR, <- plus_IZR. f_equal. exact Hdm. }
    assert (Hr0 : (0 <= IZR (m mod 2 ^ n))%R) by (apply IZR_le; lia).
    assert (Hr1 : (IZR (m mod 2 ^ n) + 1 <= IZR (2 ^ n))%R).
    { rewrite <- plus_IZR. apply IZR_le. lia. }
    rewrite Hm1. split; nra.
Qed.

Lemma Rabs_cond_Zopp (s : bool) (x y : Z) (bx by' : R) :
  (Rabs (IZR (cond_Zopp s x) * bx - IZR (cond_Zopp s y) * by')
   = Rabs (IZR x * bx - IZR y * by'))%R.
Proof.
  destruct s; simpl; [| reflexivity].
  rewrite !opp_IZR.
  replace (- IZR x * bx - - IZR y * by')%R with (- (IZR x * bx - IZR y * by'))%R
    by ring.
  apply Rabs_Ropp.
Qed.

Lemma binary_round_aux_approx (sx : bool) (m : positive) (e : Z) :
  (IZR (Z.pos m) * bpow e < bpow 10)%R ->
  let r := binary_round_aux Py.prec Py.emax sx (Z.pos m) e loc_Exact in
  finite_or_zero r = true
  /\ (Rabs (F2R r - IZR (cond_Zopp sx (Z.pos m)) * bpow e) <= bpow (-41))%R.
Proof.
  intros Hv r. subst r. unfold binary_round_aux.
  pose proof (shr_fexp_value (Z.pos m) e loc_Exact ltac:(lia)) as H1.
  destruct (shr_fexp Py.prec Py.emax (Z.pos m) e loc_Exact) as [mrs1 e1].
  simpl in H1. destruct H1 as (Hm1 & Hv1 & Hc1).
  set (m1 := shr_m mrs1) in *.
  set (m2 := round_nearest_even m1 (loc_of_shr_record mrs1)).
  pose proof (round_nearest_even_bounds m1 (loc_of_shr_record mrs1)) as Hm2.
  fold m2 in Hm2.
  pose proof (shr_fexp_value m2 e1 loc_Exact ltac:(lia)) as H2.
  destruct (shr_fexp Py.prec Py.emax m2 e1 loc_Exact) as [mrs2 e2].
  simpl in H2. destruct H2 as (Hm3 & Hv2 & Hc2).
  set (m3 := shr_m mrs2) in *.
  pose proof (digits_exponent_bound (Z.pos m) e 10 ltac:(lia) Hv) as Hd.
  simpl Zdigits2 in Hd.
  pose proof (bpow_pos e) as He. pose proof (bpow_pos e1) as He1.
  pose proof (bpow_pos e2) as He2.
  assert (He10 : e < 10).
  { apply bpow_lt_inv. assert (1 <= IZR (Z.pos m))%R by (apply IZR_le; lia). nra. }
  assert (HR2 : (IZR m1 <= IZR m2 <= IZR m1 + 1)%R).
  { split; [apply IZR_le; lia |]. rewrite <- plus_IZR. apply IZR_le. lia. }
  assert (B41 : (bpow (-43) + bpow (-42) <= bpow (-41))%R).
  { unfold bpow. simpl. lra. }
  destruct Hc1 as [(Hf1 & -> & Em1 & Hrec) | (Hlt1 & Ee1)].
  - (* nothing is shifted out: the result is exact *)
    assert (Em2 : m2 = Z.pos m).
    { unfold m2. rewrite Hrec. simpl. exact Em1. }
    destruct Hc2 as [(_ & -> & Em3 & _) | (Hlt2 & Ee2)].
    + rewrite Em3, Em2.
      replace (e <=? Py.emax - Py.prec) with true
        by (symmetry; apply Z.leb_le; unfold Py.emax, Py.prec; lia).
      split; [reflexivity |]. unfold F2R.
      rewrite Rminus_diag, Rabs_R0. pose proof (bpow_pos (-41)). lra.
    + exfalso. rewrite Em2 in Ee2. simpl Zdigits2 in *. lia.
  - rewrite fexp_binary64 in Ee1.
    assert (He1b : e1 <= -43) by lia.
    assert (He1l : -1074 <= e1) by lia.
    pose proof (bpow_le e1 (-43) He1b) as Hb1.
    assert (Hv2' : (IZR m2 * bpow e1 < bpow 11)%R).
    { assert (bpow 10 + bpow (-43) <= bpow 11)%R by (unfold bpow; simpl; lra).
      nra. }
    assert (He2b : e2 <= -42).
    { destruct Hc2 as [(_ & -> & _) | (_ & ->)]; [lia |].
      rewrite fexp_binary64. destruct (Z.eq_dec m2 0) as [-> | Hne].
      - simpl. lia.
      - pose proof (digits_exponent_bound m2 e1 11 ltac:(lia) Hv2'). lia. }
    pose proof (bpow_le e2 (-42) He2b) as Hb2.
    assert (Herr : (Rabs (IZR m3 * bpow e2 - IZR (Z.pos m) * bpow e)
                    <= bpow (-41))%R).
    { apply Rabs_le. split; nra. }
    destruct m3 as [|p3|p3] eqn:Em3; [| | lia].
    + split; [reflexivity |]. simpl F2R.
      rewrite <- (Rabs_cond_Zopp sx 0 (Z.pos m) (bpow e2) (bpow e)) in Herr.
      replace (IZR (cond_Zopp sx 0)) with 0%R in Herr by (destruct sx; reflexivity).
      rewrite Rmult_0_l in Herr. exact Herr.
    + replace (e2 <=? Py.emax - Py.prec) with true
        by (symmetry; apply Z.leb_le; unfold Py.emax, Py.prec; lia).
      split; [reflexivity |]. unfold F2R. rewrite Rabs_cond_Zopp. exact Herr.
Qed.

Lemma approx_exact (x : Py.float) :
  finite_or_zero x = true -> approx x (F2R x).
Proof.
  intros H. split; [exact H |].
  rewrite Rminus_diag, Rabs_R0. pose proof (bpow_pos (-41)). lra.
Qed.

Lemma iter_xO (m d : positive) :
  Z.pos (Pos.iter xO m d) = Z.pos m * 2 ^ Z.pos d.
Proof.
  induction d as [|d IH] using Pos.peano_ind.
  - simpl. lia.
  - rewrite Pos.iter_succ, Pos2Z.inj_succ, Z.pow_succ_r by lia.
    change (Z.pos (Pos.iter xO m d)~0) with (2 * Z.pos (Pos.iter xO m d)).
    rewrite IH. ring.
Qed.

Lemma shl_align_value (m : positive) (e e' : Z) :
  (IZR (Z.pos (fst (shl_align m e e'))) * bpow (snd (shl_align m e e'))
   = IZR (Z.pos m) * bpow e)%R.
Proof.
  unfold shl_align. destruct (e' - e) as [|d|d] eqn:Hd; simpl; try reflexivity.
  rewrite iter_xO, mult_IZR, <- bpow_IZR by lia.
  replace e with (Z.pos d + e') by lia. rewrite bpow_add. ring.
Qed.

Lemma shl_align_exponent (m : positive) (e e' : Z) :
  e' <= e -> snd (shl_align m e e') = e'.
Proof.
  intros H. unfold shl_align. destruct (e' - e) as [|d|d] eqn:Hd; simpl; lia.
Qed.

Lemma binary_round_approx (sx : bool) (m : positive) (e : Z) :
  (IZR (Z.pos m) * bpow e < bpow 10)%R ->
  approx (binary_round Py.prec Py.emax sx m e)
         (IZR (cond_Zopp sx (Z.pos m)) * bpow e).
Proof.
  intros Hv. unfold binary_round.
  pose proof (shl_align_value m e
                (fexp Py.prec Py.emax (Z.pos (digits2_pos m) + e))) as Hal.
  destruct (shl_align m e _) as [mz ez]. simpl in Hal.
  rewrite <- Hal in Hv.
  destruct (binary_round_aux_approx sx mz ez Hv) as [Hf Herr].
  split; [exact Hf |].
  replace (IZR (cond_Zopp sx (Z.pos m)) * bpow e)%R
    with (IZR (cond_Zopp sx (Z.pos mz)) * bpow ez)%R; [exact Herr |].
  destruct sx; simpl; [| exact Hal].
  change (Z.neg mz) with (- Z.pos mz). change (Z.neg m) with (- Z.pos m).
  rewrite !opp_IZR. lra.
Qed.

Lemma binary_normalize_approx (m e : Z) (szero : bool) :
  (Rabs (IZR m * bpow e) < bpow 10)%R ->
  approx (binary_normalize Py.prec Py.emax m e szero) (IZR m * bpow e).
Proof.
  intros Hv. pose proof (bpow_pos e) as He.
  destruct m as [|p|p]; simpl binary_normalize.
  - replace (IZR 0 * bpow e)%R with (F2R (S754_zero szero)) by (simpl; ring).
    apply approx_exact. reflexivity.
  - apply (binary_round_approx false p e).
    rewrite Rabs_pos_eq in Hv; [exact Hv |].
    assert (0 < IZR (Z.pos p))%R by (apply IZR_lt; lia). nra.
  - change (Z.neg p) with (cond_Zopp true (Z.pos p)).
    apply (binary_round_approx true p e).
    change (Z.neg p) with (- Z.pos p) in Hv. rewrite opp_IZR in Hv.
    replace (- IZR (Z.pos p) * bpow e)%R with (- (IZR (Z.pos p) * bpow e))%R in Hv
      by ring.
    rewrite Rabs_Ropp, Rabs_pos_eq in Hv; [exact Hv |].
    assert (0 < IZR (Z.pos p))%R by (apply IZR_lt; lia). nra.
Qed.

Lemma cond_Zopp_xorb (sx sy : bool) (mx my : positive) :
  IZR (cond_Zopp (xorb sx sy) (Z.pos (mx * my)))
  = (IZR (cond_Zopp sx (Z.pos mx)) * IZR (cond_Zopp sy (Z.pos my)))%R.
Proof.
  rewrite <- mult_IZR. f_equal. destruct sx, sy; simpl; lia.
Qed.

Lemma Rabs_signed (s : bool) (p : positive) (b : R) :
  (0 < b)%R ->
  Rabs (IZR (cond_Zopp s (Z.pos p)) * b) = (IZR (Z.pos p) * b)%R.
Proof.
  intros Hb. assert (0 < IZR (Z.pos p))%R by (apply IZR_lt; lia).
  destruct s; simpl.
  - change (Z.neg p) with (- Z.pos p). rewrite opp_IZR.
    replace (- IZR (Z.pos p) * b)%R with (- (IZR (Z.pos p) * b))%R by ring.
    rewrite Rabs_Ropp. apply Rabs_pos_eq. nra.
  - apply Rabs_pos_eq. nra.
Qed.

Lemma fmul_approx (x y : Py.float) :
  finite_or_zero x = true -> finite_or_zero y = true ->
  (Rabs (F2R x * F2R y) < bpow 10)%R ->
  approx (Py.fmul x y) (F2R x * F2R y).
Proof.
  intros Hx Hy Hv. unfold Py.fmul.
  destruct x as [sx|sx| |sx mx ex], y as [sy|sy| |sy my ey];
    try discriminate; simpl SFmul.
  1-3: replace (F2R _ * F2R _)%R with (F2R (S754_zero (xorb sx sy)))
         by (simpl; ring);
       apply approx_exact; reflexivity.
  simpl F2R in *.
  replace (IZR (cond_Zopp sx (Z.pos mx)) * bpow ex
           * (IZR (cond_Zopp sy (Z.pos my)) * bpow ey))%R
    with (IZR (cond_Zopp (xorb sx sy) (Z.pos (mx * my))) * bpow (ex + ey))%R
    in * by (rewrite cond_Zopp_xorb, bpow_add; ring).
  rewrite Rabs_signed in Hv by apply bpow_pos.
  destruct (binary_round_aux_approx (xorb sx sy) (mx * my) (ex + ey) Hv)
    as [Hf Herr].
  split; assumption.
Qed.

Lemma aligned_value (s : bool) (m : positive) (e ez : Z) :
  ez <= e ->
  (IZR (cond_Zopp s (Z.pos (fst (shl_align m e ez)))) * bpow ez
   = IZR (cond_Zopp s (Z.pos m)) * bpow e)%R.
Proof.
  intros H. pose proof (shl_align_value m e ez) as Hv.
  rewrite (shl_align_exponent m e ez H) in Hv.
  destruct s; simpl; [| exact Hv].
  change (Z.neg (fst (shl_align m e ez)))
    with (- Z.pos (fst (shl_align m e ez))).
  change (Z.neg m) with (- Z.pos m). rewrite !opp_IZR. lra.
Qed.

Lemma F2R_opp (s : bool) (m : positive) (e : Z) :
  F2R (S754_finite (negb s) m e) = (- F2R (S754_finite s m e))%R.
Proof.
  simpl. destruct s; simpl.
  - change (Z.neg m) with (- Z.pos m). rewrite opp_IZR. ring.
  - change (Z.neg m) with (- Z.pos m). rewrite opp_IZR. ring.
Qed.

Lemma fadd_approx (x y : Py.float) :
  finite_or_zero x = true -> finite_or_zero y = true ->
  (Rabs (F2R x + F2R y) < bpow 10)%R ->
  approx (Py.fadd x y) (F2R x + F2R y).
Proof.
  intros Hx Hy Hv. unfold Py.fadd.
  destruct x as [sx|sx| |sx mx ex], y as [sy|sy| |sy my ey];
    try discriminate; simpl SFadd.
  - replace (F2R (S754_zero sx) + F2R (S754_zero sy))%R
      with (F2R (if sx then if sy then S754_zero sx else S754_zero false
                 else if sy then S754_zero false else S754_zero sx))
      by (destruct sx, sy; simpl; ring).
    apply approx_exact. destruct sx, sy; reflexivity.
  - replace (F2R (S754_zero sx) + F2R (S754_finite sy my ey))%R
      with (F2R (S754_finite sy my ey)) by (simpl; ring).
    apply approx_exact. reflexivity.
  - replace (F2R (S754_finite sx mx ex) + F2R (S754_zero sy))%R
      with (F2R (S754_finite sx mx ex)) by (simpl; ring).
    apply approx_exact. reflexivity.
  - simpl F2R in *.
    rewrite <- (aligned_value sx mx ex (Z.min ex ey)) in * by lia.
    rewrite <- (aligned_value sy my ey (Z.min ex ey)) in * by lia.
    rewrite <- Rmult_plus_distr_r, <- plus_IZR in *.
    apply binary_normalize_approx. exact Hv.
Qed.

Lemma fsub_approx (x y : Py.float) :
  finite_or_zero x = true -> finite_or_zero y = true ->
  (Rabs (F2R x - F2R y) < bpow 10)%R ->
  approx (Py.fsub x y) (F2R x - F2R y).
Proof.
  intros Hx Hy Hv. unfold Py.fsub.
  destruct x as [sx|sx| |sx mx ex], y as [sy|sy| |sy my ey];
    try discriminate; simpl SFsub.
  - replace (F2R (S754_zero sx) - F2R (S754_zero sy))%R
      with (F2R (if sx then if sy then S754_zero false else S754_zero sx
                 else if sy then S754_zero sx else S754_zero false))
      by (destruct sx, sy; simpl; ring).
    apply approx_exact. destruct sx, sy; reflexivity.
  - replace (F2R (S754_zero sx) - F2R (S754_finite sy my ey))%R
      with (F2R (S754_finite (negb sy) my ey))
      by (rewrite F2R_opp; simpl; ring).
    apply approx_exact. reflexivity.
  - replace (F2R (S754_finite sx mx ex) - F2R (S754_zero sy))%R
      with (F2R (S754_finite sx mx ex)) by (simpl; ring).
    apply approx_exact. reflexivity.
  - simpl F2R in *.
    rewrite <- (aligned_value sx mx ex (Z.min ex ey)) in * by lia.
    rewrite <- (aligned_value sy my ey (Z.min ex ey)) in * by lia.
    rewrite <- Rmult_minus_distr_r, <- minus_IZR in *.
    apply binary_normalize_approx. exact Hv.
Qed.

Lemma unit_interval_value (a : Py.float) :
  in_unit_interval a = true ->
  finite_or_zero a = true /\ (0 <= F2R a <= 1)%R.
Proof.
  unfold in_unit_interval. intros H.
  apply andb_prop in H. destruct H as [H H1].
  apply andb_prop in H. destruct H as [Hv H0].
  destruct a as [s|s| |s m e].
  - split; [reflexivity | simpl; lra].
  - exfalso. clear Hv. destruct s; [discriminate H0 | discriminate H1].
  - discriminate H0.
  - split; [reflexivity |].
    destruct s; [discriminate H0 |].
    simpl in Hv. unfold bounded, canonical_mantissa in Hv.
    apply andb_prop in Hv. destruct Hv as [Hc _].
    apply Z.eqb_eq in Hc. rewrite fexp_binary64 in Hc.
    unfold SFleb, SFcompare, amount_1 in H1.
    pose proof (digits2_pos_bounds m) as [_ Hm].
    pose proof (bpow_pos e) as He.
    assert (Hm0 : (0 < IZR (Z.pos m))%R) by (apply IZR_lt; lia).
    simpl F2R. split; [nra |].
    destruct (Z.compare_spec e (-52)) as [-> | Hlt | Hgt]; [| | discriminate].
    + assert (Hle : (m <= 4503599627370496)%positive).
      { unfold Pos.le, Pos.compare. intros Hgt. rewrite Hgt in H1.
        discriminate H1. }
      apply Pos2Z.pos_le_pos in Hle. apply IZR_le in Hle.
      change (Z.pos 4503599627370496) with (2 ^ 52) in Hle.
      rewrite <- bpow_IZR in Hle by lia.
      assert (Hone : (bpow 52 * bpow (-52) = 1)%R).
      { rewrite <- bpow_add. reflexivity. }
      pose proof (bpow_pos (-52)). nra.
    + assert (Hd : Z.pos (digits2_pos m) <= 53) by lia.
      assert (Hm53 : Z.pos m < 2 ^ 53).
      { eapply Z.lt_le_trans; [exact Hm |].
        apply Z.pow_le_mono_r; lia. }
      apply IZR_lt in Hm53. rewrite <- bpow_IZR in Hm53 by lia.
      assert (Hb : (bpow 53 * bpow e <= 1)%R).
      { rewrite <- bpow_add. change 1%R with (bpow 0). apply bpow_le. lia. }
      nra.
Qed.

Lemma int_of_float_floor (m : positive) (e : Z) :
  exists w,
    Py.int_of_float (S754_finite false m e) = Ok w
    /\ (IZR w <= F2R (S754_finite false m e) < IZR w + 1)%R.
Proof.
  simpl. eexists. split; [reflexivity |].
  destruct (Z_le_gt_dec 0 e) as [He | He].
  - rewrite Z.shiftl_mul_pow2, mult_IZR, <- bpow_IZR by lia. lra.
  - rewrite Z.shiftl_div_pow2 by lia.
    set (n := - e). assert (Hn : 0 < n) by (unfold n; lia).
    assert (Hp : 0 < 2 ^ n) by (apply Z.pow_pos_nonneg; lia).
    pose proof (Z.div_mod (Z.pos m) (2 ^ n) ltac:(lia)) as Hdm.
    pose proof (Z.mod_pos_bound (Z.pos m) (2 ^ n) Hp) as Hmod.
    assert (Hm1 : (IZR (Z.pos m)
                   = IZR (2 ^ n) * IZR (Z.pos m / 2 ^ n)
                     + IZR (Z.pos m mod 2 ^ n))%R).
    { rewrite <- mult_IZR, <- plus_IZR. f_equal. exact Hdm. }
    assert (Hr0 : (0 <= IZR (Z.pos m mod 2 ^ n))%R) by (apply IZR_le; lia).
    assert (Hr1 : (IZR (Z.pos m mod 2 ^ n) + 1 <= IZR (2 ^ n))%R).
    { rewrite <- plus_IZR. apply IZR_le. lia. }
    rewrite <- bpow_IZR in Hm1, Hr1 by lia.
    assert (Hone : (bpow n * bpow e = 1)%R).
    { rewrite <- bpow_add. replace (n + e) with 0 by (unfold n; lia). reflexivity. }
    pose proof (bpow_pos n) as Hbn. pose proof (bpow_pos e) as Hbe.
    set (q := IZR (Z.pos m / 2 ^ n)) in *.
    set (r := IZR (Z.pos m mod 2 ^ n)) in *.
    rewrite Hm1.
    replace ((bpow n * q + r) * bpow e)%R with (q + r * bpow e)%R
      by (rewrite Rmult_plus_distr_r, (Rmult_comm (bpow n) q), Rmult_assoc, Hone;
          ring).
    assert (H1 : (r * bpow e < 1)%R).
    { rewrite <- Hone. apply Rmult_lt_compat_r; lra. }
    assert (H0 : (0 <= r * bpow e)%R) by nra.
    lra.
Qed.

Lemma bpow_10 : bpow 10 = 1024%R.
Proof. unfold bpow. simpl. lra. Qed.

Lemma bpow_m41 : (0 < bpow (-41) <= / 1000000)%R.
Proof. split; [apply bpow_pos |]. unfold bpow. simpl. lra. Qed.

Lemma Rabs_le_bounds (x a : R) : (Rabs x <= a)%R -> (- a <= x <= a)%R.
Proof. unfold Rabs. destruct (Rcase_abs x); lra. Qed.

Lemma approx_bounds (x : Py.float) (v : R) :
  approx x v ->
  finite_or_zero x = true /\ (v - / 1000000 <= F2R x <= v + / 1000000)%R.
Proof.
  intros [Hf H]. split; [exact Hf |].
  apply Rabs_le_bounds in H. pose proof bpow_m41. lra.
Qed.

Lemma float_of_int_approx (c : Z) :
  in_8bit c = true -> approx (Py.float_of_int c) (IZR c).
Proof.
  intros Hc. unfold in_8bit in Hc. unfold Py.float_of_int.
  replace (IZR c) with (IZR c * bpow 0)%R by (unfold bpow; simpl; ring).
  apply binary_normalize_approx. rewrite bpow_10.
  replace (IZR c * bpow 0)%R with (IZR c) by (unfold bpow; simpl; ring).
  assert (0 <= IZR c <= 255)%R by (split; apply IZR_le; lia).
  apply Rabs_def1; lra.
Qed.

Lemma effect_value_self (c : Z) (a : Py.float) :
  in_8bit c = true -> 1 <= c -> in_unit_interval a = true ->
  finite_or_zero (effect_value c c a) = true
  /\ (IZR c - / 1000 <= F2R (effect_value c c a) <= IZR c + / 1000)%R.
Proof.
  intros Hc H1 Ha. unfold effect_value.
  destruct (unit_interval_value a Ha) as [Hfa HA].
  destruct (approx_bounds _ _ (float_of_int_approx c Hc)) as [Hfc HC].
  destruct (approx_bounds _ _ (float_of_int_approx 1 eq_refl)) as [Hfo HO].
  assert (Hc255 : (1 <= IZR c <= 255)%R).
  { unfold in_8bit in Hc. split; apply IZR_le; lia. }
  set (fc := Py.float_of_int c) in *. set (one := Py.float_of_int 1) in *.
  destruct (approx_bounds _ _ (fsub_approx one a Hfo Hfa
              ltac:(rewrite bpow_10; apply Rabs_def1; lra))) as [Hfb HB].
  set (b := Py.fsub one a) in *.
  assert (HB' : (- / 100000 <= F2R b <= 2)%R) by lra.
  assert (HC' : (0 <= F2R fc <= 256)%R) by lra.
  destruct (approx_bounds _ _ (fmul_approx fc b Hfc Hfb
              ltac:(rewrite bpow_10; apply Rabs_def1; nra))) as [Hf1 HX1].
  destruct (approx_bounds _ _ (fmul_approx fc a Hfc Hfa
              ltac:(rewrite bpow_10; apply Rabs_def1; nra))) as [Hf2 HX2].
  set (x1 := Py.fmul fc b) in *. set (x2 := Py.fmul fc a) in *.
  assert (HX1' : (- 1 <= F2R x1 <= 513)%R) by nra.
  assert (HX2' : (- 1 <= F2R x2 <= 257)%R) by nra.
  destruct (approx_bounds _ _ (fadd_approx x1 x2 Hf1 Hf2
              ltac:(rewrite bpow_10; apply Rabs_def1; lra))) as [Hfx HX].
  split; [exact Hfx |].
  set (X := F2R (Py.fadd x1 x2)) in *.
  set (FC := F2R fc) in *. set (B := F2R b) in *. set (A := F2R a) in *.
  set (O := F2R one) in *.
  assert (Hs : (F2R x1 + F2R x2 - IZR c
                = (F2R x1 - FC * B) + (F2R x2 - FC * A)
                  + FC * (B - (O - A)) + FC * (O - 1) + (FC - IZR c))%R) by ring.
  assert (Ht1 : (- (256 / 1000000) <= FC * (B - (O - A)) <= 256 / 1000000)%R)
    by (split; nra).
  assert (Ht2 : (- (256 / 1000000) <= FC * (O - 1) <= 256 / 1000000)%R)
    by (split; nra).
  lra.
Qed.

Lemma fmul_zero_l (y : Py.float) :
  finite_or_zero y = true ->
  exists s, Py.fmul (S754_zero false) y = S754_zero s.
Proof. destruct y; try discriminate; intros _; simpl; eauto. Qed.

Lemma effect_value_zero (a : Py.float) :
  in_unit_interval a = true -> exists s, effect_value 0 0 a = S754_zero s.
Proof.
  intros Ha. unfold effect_value.
  destruct (unit_interval_value a Ha) as [Hfa HA].
  destruct (approx_bounds _ _ (float_of_int_approx 1 eq_refl)) as [Hfo HO].
  destruct (fsub_approx (Py.float_of_int 1) a Hfo Hfa
              ltac:(rewrite bpow_10; apply Rabs_def1; lra)) as [Hfb _].
  change (Py.float_of_int 0) with (S754_zero false).
  destruct (fmul_zero_l _ Hfb) as [s1 ->].
  destruct (fmul_zero_l _ Hfa) as [s2 ->].
  destruct s1, s2; simpl; eauto.
Qed.

(** A channel blended with itself keeps its value or loses one. *)
Lemma effect_channel_self (c : Z) (a : Py.float) :
  in_8bit c = true -> in_unit_interval a = true ->
  exists w, effect_channel c c a = Ok w /\ (w = c \/ (w = c - 1 /\ 1 <= c)).
Proof.
  intros Hc Ha. unfold effect_channel.
  destruct (Z.eq_dec c 0) as [-> | Hne].
  { destruct (effect_value_zero a Ha) as [s ->]. simpl. eauto. }
  assert (H1 : 1 <= c) by (unfold in_8bit in Hc; lia).
  destruct (effect_value_self c a Hc H1 Ha) as [Hf HX].
  assert (Hc1 : (1 <= IZR c)%R) by (apply IZR_le; lia).
  destruct (effect_value c c a) as [s|s| |s m e]; try discriminate.
  { simpl in HX. lra. }
  pose proof (bpow_pos e) as He.
  assert (Hm : (0 < IZR (Z.pos m))%R) by (apply IZR_lt; lia).
  destruct s.
  { simpl in HX. change (Z.neg m) with (- Z.pos m) in HX.
    rewrite opp_IZR in HX. nra. }
  destruct (int_of_float_floor m e) as (w & -> & Hw).
  assert (Hwc : c - 1 <= w <= c).
  { split.
    - destruct (Z_le_gt_dec (c - 1) w) as [|Hgt]; [assumption | exfalso].
      assert (Hle : w + 2 <= c) by lia.
      apply IZR_le in Hle. rewrite plus_IZR in Hle. lra.
    - destruct (Z_le_gt_dec w c) as [|Hgt]; [assumption | exfalso].
      assert (Hle : c + 1 <= w) by lia.
      apply IZR_le in Hle. rewrite plus_IZR in Hle. lra. }
  exists w. simpl. unfold in_8bit in Hc.
  split; [| lia]. f_equal. unfold clamp_8bit. lia.
Qed.

(** ** A colour blended with itself *)

(** C9 (as stated): at the amount 0.3 the colour (3,3,3) blended with
    itself gives (2,2,2): the two products and their sum are rounded to
    the float just below 3, which [int] truncates to 2. *)
Lemma C9_self_blend_counterexample :
  Py.float_of_str "0.3"%string = Ok (S754_finite false 5404319552844595 (-54))
  /\ in_unit_interval (S754_finite false 5404319552844595 (-54)) = true
  /\ is_rgb8 (Rgb 3 3 3) = true
  /\ effect_value 3 3 (S754_finite false 5404319552844595 (-54))
     = S754_finite false 6755399441055743 (-51)
  /\ apply_color_effect (Rgb 3 3 3) (Rgb 3 3 3)
       (S754_finite false 5404319552844595 (-54)) = Ok (Rgb 2 2 2)
  /\ apply_color_effect (Rgb 3 3 3) (Rgb 3 3 3)
       (S754_finite false 5404319552844595 (-54)) <> Ok (Rgb 3 3 3).
Proof.
  assert (H : apply_color_effect (Rgb 3 3 3) (Rgb 3 3 3)
                (S754_finite false 5404319552844595 (-54)) = Ok (Rgb 2 2 2))
    by (vm_compute; reflexivity).
  repeat split; try (vm_compute; reflexivity).
  rewrite H. intros [=].
Qed.

(** C9 (amended): for a colour with channels in 0-255 and an amount in
    [0, 1], the colour blended with itself is a colour each of whose
    channels is the channel of the colour or that channel less one. *)
Theorem C9_self_blend_loses_at_most_one (c : QColor) (amount : Py.float) :
  is_rgb8 c = true -> in_unit_interval amount = true ->
  exists c',
    apply_color_effect c c amount = Ok c'
    /\ is_rgb8 c' = true
    /\ (red c' = red c \/ red c' = red c - 1)
    /\ (green c' = green c \/ green c' = green c - 1)
    /\ (blue c' = blue c \/ blue c' = blue c - 1).
Proof.
  intros Hc Ha.
  destruct (is_rgb8_inv _ Hc) as (r & g & b & -> & Hr & Hg & Hb).
  destruct (effect_channel_self r amount Hr Ha) as (r' & Er & Hr').
  destruct (effect_channel_self g amount Hg Ha) as (g' & Eg & Hg').
  destruct (effect_channel_self b amount Hb Ha) as (b' & Eb & Hb').
  assert (Hr8 : in_8bit r' = true) by (unfold in_8bit in *; lia).
  assert (Hg8 : in_8bit g' = true) by (unfold in_8bit in *; lia).
  assert (Hb8 : in_8bit b' = true) by (unfold in_8bit in *; lia).
  exists (Rgb r' g' b'). unfold apply_color_effect.
  simpl red; simpl green; simpl blue. rewrite Er, Eg, Eb. simpl.
  split; [apply QColor_new_8bit; assumption |].
  rewrite Hr8, Hg8, Hb8. simpl. repeat split; lia.
Qed.

Lemma C9_self_blend_loses_at_most_one_witness :
  exists c',
    apply_color_effect (Rgb 3 200 0) (Rgb 3 200 0)
      (S754_finite false 5404319552844595 (-54)) = Ok c'
    /\ is_rgb8 c' = true
    /\ (red c' = 3 \/ red c' = 3 - 1)
    /\ (green c' = 200 \/ green c' = 200 - 1)
    /\ (blue c' = 0 \/ blue c' = 0 - 1).
Proof.
  apply (C9_self_blend_loses_at_most_one (Rgb 3 200 0)
           (S754_finite false 5404319552844595 (-54)));
    vm_compute; reflexivity.
Defined.

(** ** The sum of the blend, as a real number *)

Lemma product_bounds (x y bx by' : R) :
  (- bx <= x <= bx)%R -> (- by' <= y <= by')%R ->
  (- (bx * by') <= x * y <= bx * by')%R.
Proof. intros Hx Hy. split; nra. Qed.

(** The sum in the blend of the specification is the real number
    [source * (1 - amount) + effectBase * amount] up to a thousandth,
    for channels in 0-255 and an amount in [0, 1]. *)
Lemma weighted_sum_real (s e : Z) (a : Py.float) :
  in_8bit s = true -> in_8bit e = true ->
  in_unit_interval a = true ->
  finite_or_zero (weighted_sum s e a) = true
  /\ (Rabs (F2R (weighted_sum s e a)
            - (IZR s * (1 - F2R a) + IZR e * F2R a)) <= / 1000)%R.
Proof.
  intros Hs He Ha. unfold weighted_sum.
  destruct (unit_interval_value a Ha) as [Hfa HA].
  destruct (approx_bounds _ _ (float_of_int_approx s Hs)) as [Hfs HS].
  destruct (approx_bounds _ _ (float_of_int_approx e He)) as [Hfe HE].
  destruct (approx_bounds _ _ (float_of_int_approx 1 eq_refl)) as [Hfo HO].
  assert (Hs255 : (0 <= IZR s <= 255)%R).
  { unfold in_8bit in Hs. split; apply IZR_le; lia. }
  assert (He255 : (0 <= IZR e <= 255)%R).
  { unfold in_8bit in He. split; apply IZR_le; lia. }
  clear Hs He Ha.
  set (fs := Py.float_of_int s) in *. set (fe := Py.float_of_int e) in *.
  set (one := Py.float_of_int 1) in *.
  destruct (approx_bounds _ _ (fsub_approx one a Hfo Hfa
              ltac:(rewrite bpow_10; apply Rabs_def1; lra))) as [Hfb HB].
  set (b := Py.fsub one a) in *.
  assert (HB' : (- 2 <= F2R b <= 2)%R) by lra.
  assert (HS' : (- 257 <= F2R fs <= 257)%R) by lra.
  assert (HE' : (- 257 <= F2R fe <= 257)%R) by lra.
  assert (HA' : (- 1 <= F2R a <= 1)%R) by lra.
  pose proof (product_bounds (F2R fs) (F2R b) 257 2
                ltac:(lra) ltac:(lra)) as HP1.
  pose proof (product_bounds (F2R fe) (F2R a) 257 1
                ltac:(lra) ltac:(lra)) as HP2.
  destruct (approx_bounds _ _ (fmul_approx fs b Hfs Hfb
              ltac:(rewrite bpow_10; apply Rabs_def1; lra))) as [Hf1 HX1].
  destruct (approx_bounds _ _ (fmul_approx fe a Hfe Hfa
              ltac:(rewrite bpow_10; apply Rabs_def1; lra))) as [Hf2 HX2].
  set (x1 := Py.fmul fs b) in *. set (x2 := Py.fmul fe a) in *.
  destruct (approx_bounds _ _ (fadd_approx x1 x2 Hf1 Hf2
              ltac:(rewrite bpow_10; apply Rabs_def1; lra))) as [Hfx HX].
  split; [exact Hfx |].
  set (X := F2R (Py.fadd x1 x2)) in *.
  set (FS := F2R fs) in *. set (FE := F2R fe) in *.
  set (B := F2R b) in *. set (A := F2R a) in *. set (O := F2R one) in *.
  pose proof (product_bounds FS (B - (O - A)) 257 (/ 1000000)
                ltac:(lra) ltac:(lra)) as Ht1.
  pose proof (product_bounds FS (O - 1) 257 (/ 1000000)
                ltac:(lra) ltac:(lra)) as Ht2.
  pose proof (product_bounds (FS - IZR s) (1 - A) (/ 1000000) 1
                ltac:(lra) ltac:(lra)) as Ht3.
  pose proof (product_bounds (FE - IZR e) A (/ 1000000) 1
                ltac:(lra) ltac:(lra)) as Ht4.
  assert (Hs0 : (F2R x1 + F2R x2
                 = (F2R x1 - FS * B) + (F2R x2 - FE * A)
                   + FS * (B - (O - A)) + FS * (O - 1)
                   + (FS - IZR s) * (1 - A) + (FE - IZR e) * A
                   + (IZR s * (1 - A) + IZR e * A))%R) by ring.
  apply Rabs_le. lra.
Qed.

(** C2: [apply_color_effect] computes the three channels independently,
    each as [clamp8] of the truncation toward zero of
    [source * (1 - amount) + effectBase * amount]: it returns the colour
    of [blend], in which that sum is written out in float arithmetic,
    whenever the three sums are finite, and raises otherwise. For
    channels in 0-255 and an amount in [0, 1] the sum so computed is the
    real number [source * (1 - amount) + effectBase * amount] up to a
    thousandth. *)
Theorem C2_apply_color_effect_is_blend
    (source effect_base : QColor) (amount : Py.float) :
  match blend (channels source) (channels effect_base) amount with
  | Some (r, g, b) =>
      apply_color_effect source effect_base amount = Ok (Rgb r g b)
  | None => exists e, apply_color_effect source effect_base amount = Raise e
  end
  /\ forall s e : Z,
       in_8bit s = true -> in_8bit e = true ->
       in_unit_interval amount = true ->
       (Rabs (F2R (weighted_sum s e amount)
              - (IZR s * (1 - F2R amount) + IZR e * F2R amount))
        <= / 1000)%R.
Proof.
  split;
    [| intros s e Hs He Ha;
       exact (proj2 (weighted_sum_real s e amount Hs He Ha))].
  unfold blend, channels, apply_color_effect.
  pose proof (effect_channel_blend (red source) (red effect_base) amount) as Hr.
  pose proof (effect_channel_blend (green source) (green effect_base) amount) as Hg.
  pose proof (effect_channel_blend (blue source) (blue effect_base) amount) as Hb.
  destruct (blend_channel (red source) _ amount) as [r|]; simpl;
    [destruct Hr as [-> Hr8] | destruct Hr as [e ->]; eauto].
  destruct (blend_channel (green source) _ amount) as [g|]; simpl;
    [destruct Hg as [-> Hg8] | destruct Hg as [e ->]; eauto].
  destruct (blend_channel (blue source) _ amount) as [b|]; simpl;
    [destruct Hb as [-> Hb8] | destruct Hb as [e ->]; eauto].
  apply QColor_new_8bit; assumption.
Qed.

Lemma C2_apply_color_effect_is_blend_witness :
  apply_color_effect (Rgb 200 200 200) (Rgb 100 100 100)
    (S754_finite false 4503599627370496 (-53))
  = Ok (Rgb 150 150 150)
  /\ (Rabs (F2R (weighted_sum 200 100 (S754_finite false 4503599627370496 (-53)))
            - (IZR 200 * (1 - F2R (S754_finite false 4503599627370496 (-53)))
               + IZR 100 * F2R (S754_finite false 4503599627370496 (-53))))
      <= / 1000)%R.
Proof.
  destruct (C2_apply_color_effect_is_blend
              (Rgb 200 200 200) (Rgb 100 100 100)
              (S754_finite false 4503599627370496 (-53))) as [H1 H2].
  split.
  - assert (Hb : blend (channels (Rgb 200 200 200))
                       (channels (Rgb 100 100 100))
                       (S754_finite false 4503599627370496 (-53))
                 = Some (150, 150, 150)) by (vm_compute; reflexivity).
    rewrite Hb in H1. exact H1.
  - apply H2; reflexivity.
Defined.

(** ** The roles that the second loop sets *)

Lemma QColor_new_rgb (r g b : Z) (c : QColor) :
  QColor_new r g b = Ok c -> c = QColor_rgb r g b.
Proof.
  unfold QColor_new. destruct (in_c_int r && in_c_int g && in_c_int b);
    [intros [= <-]; reflexivity | discriminate].
Qed.

Lemma role_pass_app (pre post : list string) (st : locals) :
  role_pass (pre ++ post)%list st = role_pass pre st ≫= role_pass post.
Proof.
  unfold role_pass. revert st.
  induction pre as [|l pre IH]; intros st; simpl; [reflexivity |].
  destruct (role_line st l) as [f|e] eqn:Hl; [| reflexivity].
  destruct (role_line_continue _ _ _ Hl) as (st' & -> & _). apply IH.
Qed.

Lemma role_pass_section (lines : list string) (st st' : locals) :
  role_pass lines st = Ok st' ->
  section st' = section_after lines (section st).
Proof.
  unfold role_pass, section_after. revert st.
  induction lines as [|l lines IH]; intros st; simpl.
  - intros [= <-]. reflexivity.
  - destruct (role_line st l) as [f|e] eqn:Hl; [| discriminate].
    destruct (role_line_continue _ _ _ Hl) as (st1 & -> & Hsec).
    intros H. rewrite (IH _ H), Hsec. reflexivity.
Qed.

(** What one line of the second loop does to a role. *)
Lemma role_line_roles (st st1 : locals) (l : string) :
  role_line st l = Ok (Continue st1) ->
  match role_of_line (section st) l with
  | None => palette st1 = palette st
  | Some role0 =>
      exists r g b d key value,
        key_value (Py.strip l) = Ok (key, value)
        /\ unpack_rgb value = Ok (r, g, b)
        /\ is_rgb8 d = true
        /\ palette st1 Normal role0 = QColor_rgb r g b
        /\ palette st1 Inactive role0 = QColor_rgb r g b
        /\ palette st1 Disabled role0 = d
        /\ forall role g', role <> role0 ->
             palette st1 g' role = palette st g' role
  end.
Proof.
  intros Hl. apply role_line_inv in Hl.
  destruct Hl as [[[= ->] ->] | (key & value & role0 & Hkv & -> & Hr & _ & Ha)];
    [reflexivity |].
  apply role_assign_inv in Ha. rewrite Hr in Ha.
  destruct Ha as (r & g & b & c & d & Hu & Hc & Hd & [= ->]).
  apply QColor_new_rgb in Hc. subst c.
  exists r, g, b, d, key, value. simpl palette.
  split; [exact Hkv |]. split; [exact Hu |].
  split; [exact (apply_color_effect_rgb8 _ _ _ _ Hd) |].
  split.
  { rewrite setColor_ne_group by discriminate.
    rewrite setColor_ne_group by discriminate. apply setColor_eq. }
  split.
  { rewrite setColor_ne_group by discriminate. apply setColor_eq. }
  split; [apply setColor_eq |].
  intros role g' Hne. rewrite !setColor_ne_role by exact Hne. reflexivity.
Qed.

Lemma role_pass_roles (lines : list string) (st st' : locals)
    (role : ColorRole) :
  role_pass lines st = Ok st' ->
  (In role (assigned_roles lines (section st)) ->
   exists r g b,
     palette st' Normal role = QColor_rgb r g b
     /\ palette st' Inactive role = QColor_rgb r g b
     /\ is_rgb8 (palette st' Disabled role) = true)
  /\ (~ In role (assigned_roles lines (section st)) ->
      forall g, palette st' g role = palette st g role).
Proof.
  unfold role_pass. revert st.
  induction lines as [|l lines IH]; intros st Hrun.
  - injection Hrun as <-. simpl. split; [tauto | reflexivity].
  - simpl in Hrun. destruct (role_line st l) as [f|e] eqn:Hl; [| discriminate].
    destruct (role_line_continue _ _ _ Hl) as (st1 & -> & Hsec).
    pose proof (role_line_roles _ _ _ Hl) as Hstep.
    destruct (IH st1 Hrun) as [IHin IHout]. rewrite Hsec in IHin, IHout.
    simpl assigned_roles.
    destruct (role_of_line (section st) l) as [role0|].
    + destruct Hstep as (r & g & b & d & key & value
                         & _ & _ & Hd & HN & HI & HD & Hother).
      split.
      * intros Hin.
        destruct (in_dec ColorRole_eq_dec role
                    (assigned_roles lines (section_step (section st) l)))
          as [Hrest | Hrest]; [exact (IHin Hrest) |].
        destruct Hin as [<- | Hin]; [| contradiction].
        exists r, g, b. rewrite !(IHout Hrest), HN, HI, HD. auto.
      * intros Hnot g0. rewrite IHout by (intros H; apply Hnot; right; exact H).
        apply Hother. intros ->. apply Hnot. left. reflexivity.
    + rewrite Hstep in IHout. split; [exact IHin | exact IHout].
Qed.

Lemma load_inv (read_theme : string -> option string) (new_palette : QPalette)
    (lighter darker : QColor -> Z -> QColor) (theme content : string)
    (p : QPalette) :
  read_theme theme = Some content ->
  load_color_palette read_theme new_palette lighter darker theme = Ok p ->
  exists st1 st2,
    disabled_pass (Py.split "010" content) (initial_locals new_palette) = Ok st1
    /\ palette st1 = new_palette /\ section st1 = None
    /\ role_pass (Py.split "010" content) st1 = Ok st2
    /\ fallback lighter darker (palette st2) = Ok p.
Proof.
  intros Hread Hload. unfold load_color_palette in Hload.
  rewrite Hread in Hload.
  apply bind_inv_Ok in Hload. destruct Hload as (st2 & Hparse & Hfb).
  unfold parse_theme in Hparse.
  apply bind_inv_Ok in Hparse. destruct Hparse as (st1 & H1 & H2).
  exists st1, st2. split; [exact H1 |].
  split; [exact (disabled_pass_palette _ _ _ H1) |].
  split; [exact (disabled_pass_section _ _ _ H1) |]. auto.
Qed.

(** ** The fallback pass and the colours of the new palette *)





(** * Further properties *)

(** ** Clamping and blending *)

(** X1: [clamp_8bit] returns a value in 0-255, leaves the values of that
    range as they are, so that applying it twice changes nothing, and
    keeps the order of its arguments. *)
Theorem X1_clamp_8bit_range (v w : Z) :
  0 <= clamp_8bit v <= 255
  /\ (0 <= v <= 255 -> clamp_8bit v = v)
  /\ clamp_8bit (clamp_8bit v) = clamp_8bit v
  /\ (v <= w -> clamp_8bit v <= clamp_8bit w)
  /\ (v <= 0 -> clamp_8bit v = 0)
  /\ (255 <= v -> clamp_8bit v = 255).
Proof. unfold clamp_8bit. repeat split; lia. Qed.

Lemma Rabs_product_lt (x y bx by' c : R) :
  (- bx <= x <= bx)%R -> (- by' <= y <= by')%R -> (bx * by' < c)%R ->
  (Rabs (x * y) < c)%R.
Proof.
  intros Hx Hy Hc. pose proof (product_bounds x y bx by' Hx Hy).
  apply Rabs_def1; lra.
Qed.

Lemma convex_bounds (s e lo hi A : R) :
  (lo <= s <= hi)%R -> (lo <= e <= hi)%R -> (0 <= A <= 1)%R ->
  (lo <= s * (1 - A) + e * A <= hi)%R.
Proof. intros Hs He HA. split; nra. Qed.

(** The value of a channel stays between the two channels, up to a
    thousandth. *)
Lemma effect_value_between (s e lo hi : Z) (a : Py.float) :
  in_8bit s = true -> in_8bit e = true ->
  lo <= s <= hi -> lo <= e <= hi ->
  in_unit_interval a = true ->
  finite_or_zero (effect_value s e a) = true
  /\ (IZR lo - / 1000 <= F2R (effect_value s e a) <= IZR hi + / 1000)%R.
Proof.
  intros Hs He Hls Hle Ha. unfold effect_value.
  destruct (unit_interval_value a Ha) as [Hfa HA].
  destruct (approx_bounds _ _ (float_of_int_approx s Hs)) as [Hfs HS].
  destruct (approx_bounds _ _ (float_of_int_approx e He)) as [Hfe HE].
  destruct (approx_bounds _ _ (float_of_int_approx 1 eq_refl)) as [Hfo HO].
  assert (Hs255 : (0 <= IZR s <= 255)%R).
  { unfold in_8bit in Hs. split; apply IZR_le; lia. }
  assert (He255 : (0 <= IZR e <= 255)%R).
  { unfold in_8bit in He. split; apply IZR_le; lia. }
  pose proof (convex_bounds (IZR s) (IZR e) (IZR lo) (IZR hi) (F2R a)
                ltac:(split; apply IZR_le; lia)
                ltac:(split; apply IZR_le; lia) HA) as Htarget.
  clear Hs He Hls Hle Ha.
  set (fs := Py.float_of_int s) in *. set (fe := Py.float_of_int e) in *.
  set (one := Py.float_of_int 1) in *.
  destruct (approx_bounds _ _ (fsub_approx one a Hfo Hfa
              ltac:(rewrite bpow_10; apply Rabs_def1; lra))) as [Hfb HB].
  set (b := Py.fsub one a) in *.
  assert (HB' : (- 2 <= F2R b <= 2)%R) by lra.
  assert (HS' : (- 257 <= F2R fs <= 257)%R) by lra.
  assert (HE' : (- 257 <= F2R fe <= 257)%R) by lra.
  assert (HA' : (- 1 <= F2R a <= 1)%R) by lra.
  pose proof (product_bounds (F2R fs) (F2R b) 257 2
                ltac:(lra) ltac:(lra)) as HP1.
  pose proof (product_bounds (F2R fe) (F2R a) 257 1
                ltac:(lra) ltac:(lra)) as HP2.
  destruct (approx_bounds _ _ (fmul_approx fs b Hfs Hfb
              ltac:(rewrite bpow_10; apply Rabs_def1; lra))) as [Hf1 HX1].
  destruct (approx_bounds _ _ (fmul_approx fe a Hfe Hfa
              ltac:(rewrite bpow_10; apply Rabs_def1; lra))) as [Hf2 HX2].
  set (x1 := Py.fmul fs b) in *. set (x2 := Py.fmul fe a) in *.
  destruct (approx_bounds _ _ (fadd_approx x1 x2 Hf1 Hf2
              ltac:(rewrite bpow_10; apply Rabs_def1; lra))) as [Hfx HX].
  split; [exact Hfx |].
  set (X := F2R (Py.fadd x1 x2)) in *.
  set (FS := F2R fs) in *. set (FE := F2R fe) in *.
  set (B := F2R b) in *. set (A := F2R a) in *. set (O := F2R one) in *.
  pose proof (product_bounds FS (B - (O - A)) 257 (/ 1000000)
                ltac:(lra) ltac:(lra)) as Ht1.
  pose proof (product_bounds FS (O - 1) 257 (/ 1000000)
                ltac:(lra) ltac:(lra)) as Ht2.
  pose proof (product_bounds (FS - IZR s) (1 - A) (/ 1000000) 1
                ltac:(lra) ltac:(lra)) as Ht3.
  pose proof (product_bounds (FE - IZR e) A (/ 1000000) 1
                ltac:(lra) ltac:(lra)) as Ht4.
  assert (Hs0 : (F2R x1 + F2R x2
                 = (F2R x1 - FS * B) + (F2R x2 - FE * A)
                   + FS * (B - (O - A)) + FS * (O - 1)
                   + (FS - IZR s) * (1 - A) + (FE - IZR e) * A
                   + (IZR s * (1 - A) + IZR e * A))%R) by ring.
  lra.
Qed.

Lemma int_of_float_shiftl (s : bool) (m : positive) (e : Z) :
  Py.int_of_float (S754_finite s m e)
  = Ok (if s then - Z.shiftl (Z.pos m) e else Z.shiftl (Z.pos m) e).
Proof. reflexivity. Qed.

Lemma effect_channel_between (s e lo hi : Z) (a : Py.float) :
  in_8bit s = true -> in_8bit e = true ->
  0 <= lo -> hi <= 255 -> lo <= s <= hi -> lo <= e <= hi ->
  in_unit_interval a = true ->
  exists w, effect_channel s e a = Ok w
            /\ lo - 1 <= w <= hi /\ in_8bit w = true.
Proof.
  intros Hs He Hlo Hhi Hls Hle Ha. unfold effect_channel.
  destruct (effect_value_between s e lo hi a Hs He Hls Hle Ha) as [Hf HX].
  assert (Hlo0 : (0 <= IZR lo)%R) by (apply IZR_le; lia).
  destruct (effect_value s e a) as [sg|sg| |sg m ex]; try discriminate.
  - simpl in HX. exists 0. simpl.
    assert (lo - 1 <= 0 <= hi).
    { split; [| lia].
      destruct (Z_le_gt_dec lo 1) as [|Hgt]; [lia | exfalso].
      assert (H2 : 2 <= lo) by lia. apply IZR_le in H2. lra. }
    unfold in_8bit. repeat split; lia.
  - destruct (int_of_float_floor m ex) as (w & Hw & Hb).
    rewrite int_of_float_shiftl in Hw. injection Hw as Hw.
    pose proof (bpow_pos ex) as Hex.
    assert (Hm : (0 < IZR (Z.pos m))%R) by (apply IZR_lt; lia).
    rewrite int_of_float_shiftl. destruct sg.
    + (* a negative value is above -1/1000: it truncates to 0 *)
      assert (HX' : (F2R (S754_finite false m ex) <= / 1000)%R).
      { simpl in HX |- *. change (Z.neg m) with (- Z.pos m) in HX.
        rewrite opp_IZR in HX. lra. }
      assert (Hw0 : w = 0).
      { assert (0 <= w).
        { rewrite <- Hw. apply Z.shiftl_nonneg. lia. }
        destruct (Z_le_gt_dec w 0) as [|Hgt]; [lia | exfalso].
        assert (H1 : 1 <= w) by lia. apply IZR_le in H1. lra. }
      assert (Hlo1 : lo <= 0).
      { destruct (Z_le_gt_dec lo 0) as [|Hgt]; [lia | exfalso].
        assert (H1 : 1 <= lo) by lia. apply IZR_le in H1.
        simpl in HX. change (Z.neg m) with (- Z.pos m) in HX.
        rewrite opp_IZR in HX. nra. }
      rewrite Hw, Hw0. exists 0. simpl. unfold in_8bit. repeat split; lia.
    + assert (Hw0 : 0 <= w).
      { rewrite <- Hw. apply Z.shiftl_nonneg. lia. }
      assert (Hwhi : w <= hi).
      { destruct (Z_le_gt_dec w hi) as [|Hgt]; [lia | exfalso].
        assert (H1 : hi + 1 <= w) by lia. apply IZR_le in H1.
        rewrite plus_IZR in H1. lra. }
      assert (Hwlo : lo - 1 <= w).
      { destruct (Z_le_gt_dec (lo - 1) w) as [|Hgt]; [lia | exfalso].
        assert (H1 : w + 2 <= lo) by lia. apply IZR_le in H1.
        rewrite plus_IZR in H1. lra. }
      rewrite Hw. exists w. simpl. unfold in_8bit, clamp_8bit.
      split; [f_equal; lia |]. split; lia.
Qed.

(** X2: for two colours with channels in 0-255 and an amount in [0, 1],
    [apply_color_effect] does not raise, and returns a valid colour each
    of whose channels lies between the two channels blended, or one
    below the smaller of them. *)
Theorem X2_blend_stays_between (source effect_base : QColor)
    (amount : Py.float) :
  is_rgb8 source = true -> is_rgb8 effect_base = true ->
  in_unit_interval amount = true ->
  exists c,
    apply_color_effect source effect_base amount = Ok c
    /\ is_rgb8 c = true
    /\ Z.min (red source) (red effect_base) - 1 <= red c
       <= Z.max (red source) (red effect_base)
    /\ Z.min (green source) (green effect_base) - 1 <= green c
       <= Z.max (green source) (green effect_base)
    /\ Z.min (blue source) (blue effect_base) - 1 <= blue c
       <= Z.max (blue source) (blue effect_base).
Proof.
  intros Hs He Ha.
  destruct (is_rgb8_inv _ Hs) as (sr & sg & sb & -> & Hsr & Hsg & Hsb).
  destruct (is_rgb8_inv _ He) as (er & eg & eb & -> & Her & Heg & Heb).
  destruct (effect_channel_between sr er (Z.min sr er) (Z.max sr er) amount
              Hsr Her) as (r & Er & Hr & Hr8);
    try (unfold in_8bit in *; lia); try exact Ha.
  destruct (effect_channel_between sg eg (Z.min sg eg) (Z.max sg eg) amount
              Hsg Heg) as (g & Eg & Hg & Hg8);
    try (unfold in_8bit in *; lia); try exact Ha.
  destruct (effect_channel_between sb eb (Z.min sb eb) (Z.max sb eb) amount
              Hsb Heb) as (b & Eb & Hb & Hb8);
    try (unfold in_8bit in *; lia); try exact Ha.
  exists (Rgb r g b). unfold apply_color_effect.
  simpl red; simpl green; simpl blue. rewrite Er, Eg, Eb. simpl.
  split; [apply QColor_new_8bit; assumption |].
  rewrite Hr8, Hg8, Hb8. simpl. auto.
Qed.

Lemma X2_blend_stays_between_witness :
  exists c,
    apply_color_effect (Rgb 200 0 40) (Rgb 100 255 40)
      (S754_finite false 5404319552844595 (-54)) = Ok c
    /\ is_rgb8 c = true
    /\ Z.min 200 100 - 1 <= red c <= Z.max 200 100
    /\ Z.min 0 255 - 1 <= green c <= Z.max 0 255
    /\ Z.min 40 40 - 1 <= blue c <= Z.max 40 40.
Proof.
  apply (X2_blend_stays_between (Rgb 200 0 40) (Rgb 100 255 40)
           (S754_finite false 5404319552844595 (-54)));
    vm_compute; reflexivity.
Defined.

(** X3: whatever the colours and the amount, a colour that
    [apply_color_effect] returns is valid and has its channels in
    0-255. *)
Theorem X3_effect_result_is_valid (source effect_base c : QColor)
    (amount : Py.float) :
  apply_color_effect source effect_base amount = Ok c ->
  isValid c = true /\ in_8bit (red c) = true /\ in_8bit (green c) = true
  /\ in_8bit (blue c) = true.
Proof.
  intros H. apply apply_color_effect_rgb8 in H.
  destruct (is_rgb8_inv _ H) as (r & g & b & -> & Hr & Hg & Hb). simpl. auto.
Qed.

Lemma X3_effect_result_is_valid_witness :
  isValid (Rgb 255 0 35) = true /\ in_8bit (red (Rgb 255 0 35)) = true
  /\ in_8bit (green (Rgb 255 0 35)) = true
  /\ in_8bit (blue (Rgb 255 0 35)) = true.
Proof.
  apply (X3_effect_result_is_valid (Rgb 2000 (-5) 7) Invalid (Rgb 255 0 35)
           (S754_finite true 4503599627370496 (-50))).
  vm_compute. reflexivity.
Defined.

(** ** Reading the lines *)

Lemma split_1_contains (c : ascii) (s : string) :
  Py.contains c s = true ->
  exists k v, s = (k ++ String c v)%string /\ Py.contains c k = false.
Proof.
  induction s as [|d s IH]; simpl; [discriminate |].
  destruct (Ascii.eqb d c) eqn:E.
  - intros _. apply Ascii.eqb_eq in E. subst d.
    exists EmptyString, s. split; reflexivity.
  - simpl. intros H. destruct (IH H) as (k & v & -> & Hk).
    exists (String d k), v. split; [reflexivity |]. simpl. rewrite E, Hk.
    reflexivity.
Qed.

(** X4: on a line that contains [=], the unpacking of
    [line.split("=", 1)] into a key and a value cannot fail: the line is
    a key without [=], the first [=] and a value, and the pair read is
    the stripped key and the stripped value. *)
Theorem X4_key_value_never_fails (line : string) :
  Py.contains "=" line = true ->
  exists k v,
    line = (k ++ "=" ++ v)%string
    /\ Py.contains "=" k = false
    /\ key_value line = Ok (Py.strip k, Py.strip v).
Proof.
  intros H. destruct (split_1_contains _ _ H) as (k & v & -> & Hk).
  exists k, v. split; [reflexivity |]. split; [exact Hk |].
  unfold key_value. rewrite split_1_app by exact Hk. reflexivity.
Qed.

Lemma X4_key_value_never_fails_witness :
  exists k v,
    " a = b=c "%string = (k ++ "=" ++ v)%string
    /\ Py.contains "=" k = false
    /\ key_value " a = b=c " = Ok (Py.strip k, Py.strip v).
Proof.
  apply (X4_key_value_never_fails " a = b=c "). reflexivity.
Defined.

Lemma int_raises_ValueError (s : string) (e : exn) :
  Py.int s = Raise e -> exists what, e = ValueError what.
Proof.
  unfold Py.int. destruct (Py.sign (Py.strip_number s)) as [neg body].
  destruct (Py.digitpart body 0 0 false) as [[[v n] rest]|];
    [destruct (Z.ltb Py.max_str_digits n); [| destruct rest] |];
    intros [= <-]; eauto.
Qed.

(** X5: [r, g, b = map(int, value.split(","))] gives three integers
    exactly when the value is three comma-separated texts that [int]
    accepts, and those integers; on every other value it raises a
    [ValueError]. *)
Theorem X5_unpack_rgb_reads_three_integers (value : string) :
  match three_integers value with
  | Some rgb => unpack_rgb value = Ok rgb
  | None => exists what, unpack_rgb value = Raise (ValueError what)
  end.
Proof.
  unfold three_integers, unpack_rgb.
  destruct (Py.split "," value) as [|s1 [|s2 [|s3 [|s4 rest]]]]; eauto.
  - destruct (Py.int s1) as [r|e] eqn:E1; simpl; eauto.
    destruct (int_raises_ValueError _ _ E1) as [w ->]. eauto.
  - destruct (Py.int s1) as [r|e] eqn:E1; simpl;
      [| destruct (int_raises_ValueError _ _ E1) as [w ->]; eauto].
    destruct (Py.int s2) as [g|e] eqn:E2; simpl; eauto.
    destruct (int_raises_ValueError _ _ E2) as [w ->]. eauto.
  - destruct (Py.int s1) as [r|e] eqn:E1; simpl;
      [| destruct (int_raises_ValueError _ _ E1) as [w ->]; eauto].
    destruct (Py.int s2) as [g|e] eqn:E2; simpl;
      [| destruct (int_raises_ValueError _ _ E2) as [w ->]; eauto].
    destruct (Py.int s3) as [b|e] eqn:E3; simpl; eauto.
    destruct (int_raises_ValueError _ _ E3) as [w ->]. eauto.
  - destruct (Py.int s1) as [r|e] eqn:E1; simpl;
      [| destruct (int_raises_ValueError _ _ E1) as [w ->]; eauto].
    destruct (Py.int s2) as [g|e] eqn:E2; simpl;
      [| destruct (int_raises_ValueError _ _ E2) as [w ->]; eauto].
    destruct (Py.int s3) as [b|e] eqn:E3; simpl;
      [| destruct (int_raises_ValueError _ _ E3) as [w ->]; eauto].
    destruct (Py.int s4) as [x|e] eqn:E4; simpl; eauto.
    destruct (int_raises_ValueError _ _ E4) as [w ->]. eauto.
Qed.

Lemma strip_idempotent (s : string) : Py.strip (Py.strip s) = Py.strip s.
Proof.
  unfold Py.strip at 2. rewrite strip_rstrip, strip_lstrip. reflexivity.
Qed.

Lemma for_each_ext {S A : Type} (f : S -> A -> result (flow S))
    (h : A -> A) :
  (forall s a, f s (h a) = f s a) ->
  forall items s, for_each f (map h items) s = for_each f items s.
Proof.
  intros Hf. induction items as [|a items IH]; intros s; simpl; [reflexivity |].
  rewrite Hf. destruct (f s a) as [[s'|s']|e]; auto.
Qed.

(** X6: the white space at either end of a line does not matter: both
    loops give the same result on the lines and on the stripped
    lines. *)
Theorem X6_surrounding_white_space_is_ignored (lines : list string)
    (st : locals) :
  disabled_pass (map Py.strip lines) st = disabled_pass lines st
  /\ role_pass (map Py.strip lines) st = role_pass lines st.
Proof.
  unfold disabled_pass, role_pass.
  split; apply (for_each_ext _ Py.strip);
    intros s a; [unfold disabled_line | unfold role_line];
    rewrite strip_idempotent; reflexivity.
Qed.

Lemma for_each_skip {S A : Type} (body : S -> A -> result (flow S)) (a : A) :
  (forall s, body s a = Ok (Continue s)) ->
  forall pre post s,
    for_each body (pre ++ a :: post)%list s = for_each body (pre ++ post)%list s.
Proof.
  intros Ha. induction pre as [|b pre IH]; intros post s; simpl.
  - rewrite Ha. reflexivity.
  - destruct (body s b) as [[s'|s']|e]; auto.
Qed.

Lemma startswith_not_header (line : string) :
  Py.startswith "[" line = false -> String.eqb line disabled_header = false.
Proof.
  intros H. destruct (String.eqb line disabled_header) eqn:E; [| reflexivity].
  apply String.eqb_eq in E. subst line. discriminate H.
Qed.

(** X7: a line that, once stripped, does not begin with a bracket and
    contains no [=], such as an empty line or a comment, can be taken
    out of the file anywhere: neither loop reads anything from it. *)
Theorem X7_lines_without_equals_are_ignored (pre post : list string)
    (line : string) (st : locals) :
  Py.startswith "[" (Py.strip line) = false ->
  Py.contains "=" (Py.strip line) = false ->
  disabled_pass (pre ++ line :: post)%list st = disabled_pass (pre ++ post)%list st
  /\ role_pass (pre ++ line :: post)%list st = role_pass (pre ++ post)%list st.
Proof.
  intros Hb Hc. unfold disabled_pass, role_pass.
  split; apply for_each_skip; intros s.
  - unfold disabled_line.
    rewrite (startswith_not_header _ Hb), Hb, Hc.
    destruct (in_disabled_section s); reflexivity.
  - unfold role_line. rewrite Hb, Hc. reflexivity.
Qed.

Lemma X7_lines_without_equals_are_ignored_witness :
  disabled_pass
    (["[ColorEffects:Disabled]"%string] ++ "  # a comment"%string
       :: ["Color=1,2,3"%string])%list (initial_locals empty_palette)
  = disabled_pass (["[ColorEffects:Disabled]"%string] ++ ["Color=1,2,3"%string])%list
      (initial_locals empty_palette)
  /\ role_pass
       (["[ColorEffects:Disabled]"%string] ++ "  # a comment"%string
          :: ["Color=1,2,3"%string])%list (initial_locals empty_palette)
     = role_pass (["[ColorEffects:Disabled]"%string] ++ ["Color=1,2,3"%string])%list
         (initial_locals empty_palette).
Proof.
  apply (X7_lines_without_equals_are_ignored
           ["[ColorEffects:Disabled]"%string] ["Color=1,2,3"%string]
           "  # a comment" (initial_locals empty_palette));
    reflexivity.
Defined.

(** ** The palette after the two loops *)

(** X8: after a load, every role set by a line of the theme has the
    same colour in the Normal and in the Inactive group, the colour of
    some triple of integers, and a Disabled colour that is valid with
    channels in 0-255. *)
Theorem X8_assigned_roles_are_complete
    (read_theme : string -> option string) (new_palette : QPalette)
    (lighter darker : QColor -> Z -> QColor) (theme content : string)
    (p : QPalette) (role : ColorRole) :
  read_theme theme = Some content ->
  load_color_palette read_theme new_palette lighter darker theme = Ok p ->
  In role (assigned_roles (Py.split "010" content) None) ->
  (exists r g b, color p Normal role = QColor_rgb r g b)
  /\ color p Inactive role = color p Normal role
  /\ is_rgb8 (color p Disabled role) = true.
Proof.
  intros Hread Hload Hin.
  destruct (load_inv _ _ _ _ _ _ _ Hread Hload)
    as (st1 & st2 & _ & _ & Hsec & H2 & Hfb).
  pose proof (assigned_roles_not_fallback _ _ _ Hin) as Hnf.
  unfold color. rewrite !(fallback_other_roles _ _ _ _ _ _ Hfb Hnf).
  destruct (role_pass_roles _ _ _ role H2) as [Hroles _].
  rewrite Hsec in Hroles. destruct (Hroles Hin) as (r & g & b & HN & HI & HD).
  split; [exists r, g, b; exact HN |]. split; [congruence | exact HD].
Qed.

(** X9: a role that no line of the theme sets, other than the five
    roles of the fallback pass, has after the load the colour that the
    new palette had, in every group: sections and keys that the mapping
    does not know change nothing. *)
Theorem X9_other_roles_are_untouched
    (read_theme : string -> option string) (new_palette : QPalette)
    (lighter darker : QColor -> Z -> QColor) (theme content : string)
    (p : QPalette) (role : ColorRole) :
  read_theme theme = Some content ->
  load_color_palette read_theme new_palette lighter darker theme = Ok p ->
  ~ In role (assigned_roles (Py.split "010" content) None) ->
  ~ In role fallback_roles ->
  forall g, color p g role = color new_palette g role.
Proof.
  intros Hread Hload Hnot Hnf g.
  destruct (load_inv _ _ _ _ _ _ _ Hread Hload)
    as (st1 & st2 & _ & Hpal & Hsec & H2 & Hfb).
  unfold color. rewrite (fallback_other_roles _ _ _ _ _ _ Hfb Hnf).
  destruct (role_pass_roles _ _ _ role H2) as [_ Hkeep].
  rewrite Hsec in Hkeep. rewrite (Hkeep Hnot). rewrite Hpal. reflexivity.
Qed.

Lemma section_after_app (pre post : list string) (sec : option string) :
  section_after (pre ++ post)%list sec = section_after post (section_after pre sec).
Proof. unfold section_after. apply fold_left_app. Qed.

(** X10: the last line that sets a role decides its colour: when a
    line gives a role the value [value] and no later line sets that
    role, the Normal and Inactive colours of the role after the load are
    the colour of the three integers of [value]. *)
Theorem X10_last_assignment_wins
    (read_theme : string -> option string) (new_palette : QPalette)
    (lighter darker : QColor -> Z -> QColor) (theme content : string)
    (p : QPalette) (pre post : list string) (line key value : string)
    (role : ColorRole) :
  read_theme theme = Some content ->
  load_color_palette read_theme new_palette lighter darker theme = Ok p ->
  Py.split "010" content = (pre ++ line :: post)%list ->
  role_of_line (section_after pre None) line = Some role ->
  key_value (Py.strip line) = Ok (key, value) ->
  ~ In role (assigned_roles post (section_after (pre ++ [line])%list None)) ->
  exists r g b,
    three_integers value = Some (r, g, b)
    /\ color p Normal role = QColor_rgb r g b
    /\ color p Inactive role = QColor_rgb r g b.
Proof.
  intros Hread Hload Hsplit Hrole Hkv Hlast.
  destruct (load_inv _ _ _ _ _ _ _ Hread Hload)
    as (st1 & st2 & _ & _ & Hsec & H2 & Hfb).
  rewrite Hsplit in H2. rewrite role_pass_app in H2.
  apply bind_inv_Ok in H2. destruct H2 as (sa & Hpre & Hrest).
  pose proof (role_pass_section _ _ _ Hpre) as Hsa. rewrite Hsec in Hsa.
  change (line :: post) with ([line] ++ post)%list in Hrest.
  rewrite role_pass_app in Hrest.
  apply bind_inv_Ok in Hrest. destruct Hrest as (sb & Hline & Hpost).
  pose proof (role_pass_section _ _ _ Hline) as Hsb.
  unfold role_pass in Hline. simpl in Hline.
  destruct (role_line sa line) as [f|e] eqn:Hl; [| discriminate].
  destruct (role_line_continue _ _ _ Hl) as (sb' & -> & _).
  injection Hline as ->.
  pose proof (role_line_roles _ _ _ Hl) as Hstep.
  rewrite Hsa, Hrole in Hstep.
  destruct Hstep as (r & g & b & d & key' & value'
                     & Hkv' & Hu & _ & HN & HI & _ & _).
  rewrite Hkv in Hkv'. injection Hkv' as <- <-.
  pose proof (unpack_rgb_three_integers value) as H3. rewrite Hu in H3.
  destruct (three_integers value) as [rgb|]; [| destruct H3; discriminate].
  injection H3 as <-.
  exists r, g, b. split; [reflexivity |].
  assert (Hnf : ~ In role fallback_roles).
  { unfold role_of_line in Hrole.
    destruct (Py.startswith "[" _ && Py.endswith "]" _); [discriminate |].
    destruct (Py.contains "=" _); [| discriminate].
    destruct (key_value (Py.strip line)) as [[k v]|]; [| discriminate].
    exact (role_of_not_fallback _ _ _ Hrole). }
  unfold color. rewrite !(fallback_other_roles _ _ _ _ _ _ Hfb Hnf).
  destruct (role_pass_roles _ _ _ role Hpost) as [_ Hkeep].
  rewrite Hsb, Hsa in Hkeep. rewrite section_after_app in Hlast.
  rewrite !(Hkeep Hlast). auto.
Qed.

Lemma X8_assigned_roles_are_complete_witness :
  exists p,
    load_color_palette sample_themes empty_palette sample_lighter sample_darker
      "effect.colors" = Ok p
    /\ color p Inactive ButtonText = color p Normal ButtonText
    /\ is_rgb8 (color p Disabled ButtonText) = true.
Proof.
  pose (p := match load_color_palette sample_themes empty_palette
                     sample_lighter sample_darker "effect.colors" with
             | Ok p => p
             | Raise _ => empty_palette
             end).
  assert (Hp : load_color_palette sample_themes empty_palette
                 sample_lighter sample_darker "effect.colors" = Ok p)
    by (vm_compute; reflexivity).
  exists p. split; [exact Hp |].
  assert (Hin : In ButtonText (assigned_roles (Py.split "010" effect_theme) None))
    by (vm_compute; auto).
  destruct (X8_assigned_roles_are_complete
              sample_themes empty_palette sample_lighter sample_darker
              "effect.colors" effect_theme p ButtonText eq_refl Hp Hin)
    as (_ & HI & HD).
  split; [exact HI | exact HD].
Defined.

Lemma X9_other_roles_are_untouched_witness :
  exists p,
    load_color_palette sample_themes empty_palette sample_lighter sample_darker
      "plain.colors" = Ok p
    /\ forall g, color p g Text = Invalid.
Proof.
  pose (p := match load_color_palette sample_themes empty_palette
                     sample_lighter sample_darker "plain.colors" with
             | Ok p => p
             | Raise _ => empty_palette
             end).
  assert (Hp : load_color_palette sample_themes empty_palette
                 sample_lighter sample_darker "plain.colors" = Ok p)
    by (vm_compute; reflexivity).
  exists p. split; [exact Hp |].
  assert (Hroles : assigned_roles (Py.split "010" plain_theme) None
                   = [Button; Window]) by (vm_compute; reflexivity).
  assert (Hnot : ~ In Text (assigned_roles (Py.split "010" plain_theme) None)).
  { rewrite Hroles. intros [H | [H | []]]; discriminate H. }
  assert (Hnf : ~ In Text fallback_roles).
  { intros [H | [H | [H | [H | [H | []]]]]]; discriminate H. }
  exact (X9_other_roles_are_untouched
           sample_themes empty_palette sample_lighter sample_darker
           "plain.colors" plain_theme p Text eq_refl Hp Hnot Hnf).
Defined.

Lemma X10_last_assignment_wins_witness :
  exists p,
    load_color_palette (fun _ => Some repeated_theme) empty_palette
      sample_lighter sample_darker "repeated.colors" = Ok p
    /\ color p Normal Button = Rgb 4 5 6.
Proof.
  pose (p := match load_color_palette (fun _ => Some repeated_theme)
                     empty_palette sample_lighter sample_darker
                     "repeated.colors" with
             | Ok p => p
             | Raise _ => empty_palette
             end).
  assert (Hp : load_color_palette (fun _ => Some repeated_theme) empty_palette
                 sample_lighter sample_darker "repeated.colors" = Ok p)
    by (vm_compute; reflexivity).
  exists p. split; [exact Hp |].
  assert (Hsplit : Py.split "010" repeated_theme
                   = (["[Colors:Button]"; "BackgroundNormal=1,2,3"]
                        ++ "BackgroundNormal = 4,5,6" :: [])%list)
    by (vm_compute; reflexivity).
  assert (Hrole : role_of_line
                    (section_after ["[Colors:Button]"; "BackgroundNormal=1,2,3"]
                                   None)
                    "BackgroundNormal = 4,5,6" = Some Button)
    by (vm_compute; reflexivity).
  assert (Hkv : key_value (Py.strip "BackgroundNormal = 4,5,6")
                = Ok ("BackgroundNormal", "4,5,6"))
    by (vm_compute; reflexivity).
  assert (H3 : three_integers "4,5,6" = Some (4, 5, 6))
    by (vm_compute; reflexivity).
  destruct (X10_last_assignment_wins
              (fun _ => Some repeated_theme) empty_palette
              sample_lighter sample_darker "repeated.colors" repeated_theme p
              ["[Colors:Button]"; "BackgroundNormal=1,2,3"] []
              "BackgroundNormal = 4,5,6" "BackgroundNormal" "4,5,6" Button
              eq_refl Hp Hsplit Hrole Hkv (fun H => H))
    as (r & g & b & H3' & HN & _).
  rewrite H3 in H3'. injection H3' as <- <- <-. exact HN.
Defined.

(** ** Roles of the fallback pass *)

Lemma average_valid (a b : QColor) :
  wf_color a = true -> wf_color b = true -> isValid (average a b) = true.
Proof.
  intros Ha Hb.
  destruct (wf_color_channels a Ha) as (Har & Hag & Hab).
  destruct (wf_color_channels b Hb) as (Hbr & Hbg & Hbb).
  unfold average, QColor_rgb.
  rewrite (in_8bit_average _ _ Har Hbr), (in_8bit_average _ _ Hag Hbg),
    (in_8bit_average _ _ Hab Hbb).
  reflexivity.
Qed.

(** X11: when the colours that Qt hands out (the new palette, and the
    results of [lighter] and [darker]) are invalid or have channels in
    0-255, a palette that has been loaded has valid Normal colours for
    the roles Midlight, Mid and Shadow, whatever the theme says. *)
Theorem X11_derived_roles_are_valid
    (read_theme : string -> option string) (new_palette : QPalette)
    (lighter darker : QColor -> Z -> QColor) (theme : string) (p : QPalette) :
  wf_palette new_palette ->
  (forall c f, wf_color (lighter c f) = true) ->
  (forall c f, wf_color (darker c f) = true) ->
  load_color_palette read_theme new_palette lighter darker theme = Ok p ->
  isValid (color p Normal Midlight) = true
  /\ isValid (color p Normal Mid) = true
  /\ isValid (color p Normal Shadow) = true.
Proof.
  intros Hnew Hl Hd Hload. unfold load_color_palette in Hload.
  destruct (read_theme theme) as [content|]; [| discriminate Hload].
  apply bind_inv_Ok in Hload. destruct Hload as (st & Hparse & Hfb).
  pose proof (parse_theme_wf _ _ _ Hnew Hparse) as Hwf.
  destruct (fallback_spec lighter darker Hl Hd (palette st) Hwf)
    as (p' & Hp' & Hkeep & _ & HL & HD & HM & HI & HS).
  assert (p' = p) by congruence. subst p'.
  assert (HwL : wf_color (color p Normal Light) = true).
  { destruct (isValid (color (palette st) Normal Light)) eqn:E.
    - rewrite (Hkeep Light) by (simpl; auto 10). apply Hwf.
    - rewrite HL by reflexivity. apply Hl. }
  assert (HwD : wf_color (color p Normal Dark) = true).
  { destruct (isValid (color (palette st) Normal Dark)) eqn:E.
    - rewrite (Hkeep Dark) by (simpl; auto 10). apply Hwf.
    - rewrite HD by reflexivity. apply Hd. }
  split; [| split].
  - destruct (isValid (color (palette st) Normal Midlight)) eqn:E.
    + rewrite (Hkeep Midlight) by (simpl; auto 10). exact E.
    + rewrite HM by reflexivity. apply average_valid; [exact HwL | apply Hwf].
  - destruct (isValid (color (palette st) Normal Mid)) eqn:E.
    + rewrite (Hkeep Mid) by (simpl; auto 10). exact E.
    + rewrite HI by reflexivity. apply average_valid; [exact HwD | apply Hwf].
  - destruct (isValid (color (palette st) Normal Shadow)) eqn:E.
    + rewrite (Hkeep Shadow) by (simpl; auto 10). exact E.
    + rewrite HS by reflexivity. reflexivity.
Qed.

Lemma X11_derived_roles_are_valid_witness :
  exists p,
    load_color_palette sample_themes empty_palette sample_lighter sample_darker
      "out_of_range.colors" = Ok p
    /\ isValid (color p Normal Midlight) = true
    /\ isValid (color p Normal Mid) = true
    /\ isValid (color p Normal Shadow) = true.
Proof.
  pose (p := match load_color_palette sample_themes empty_palette
                     sample_lighter sample_darker "out_of_range.colors" with
             | Ok p => p
             | Raise _ => empty_palette
             end).
  assert (Hp : load_color_palette sample_themes empty_palette
                 sample_lighter sample_darker "out_of_range.colors" = Ok p)
    by (vm_compute; reflexivity).
  exists p. split; [exact Hp |].
  assert (Hscale : forall c num den, wf_color (scale c num den) = true)
    by (intros [|r g b] num den; [reflexivity | apply QColor_rgb_wf]).
  exact (X11_derived_roles_are_valid
           sample_themes empty_palette sample_lighter sample_darker
           "out_of_range.colors" p
           (fun _ _ => eq_refl) (fun c f => Hscale c f 100)
           (fun c f => Hscale c 100 f) Hp).
Defined.

(** ** The mapping from keys to roles *)

Lemma role_of_cases (sec : option string) (key : string) (role : ColorRole) :
  role_of sec key = Some role ->
  In (sec, key, role)
     [ (Some "Colors:Button", "BackgroundNormal", Button);
       (Some "Colors:Button", "ForegroundNormal", ButtonText);
       (Some "Colors:Button", "ForegroundActive", BrightText);
       (Some "Colors:View", "BackgroundNormal", Base);
       (Some "Colors:View", "BackgroundAlternate", AlternateBase);
       (Some "Colors:View", "ForegroundNormal", Text);
       (Some "Colors:View", "ForegroundLink", Link);
       (Some "Colors:View", "ForegroundVisited", LinkVisited);
       (Some "Colors:View", "ForegroundInactive", PlaceholderText);
       (Some "Colors:Selection", "BackgroundNormal", Highlight);
       (Some "Colors:Selection", "ForegroundNormal", HighlightedText);
       (Some "Colors:Tooltip", "BackgroundNormal", ToolTipBase);
       (Some "Colors:Tooltip", "ForegroundNormal", ToolTipText);
       (Some "Colors:Window", "BackgroundNormal", Window);
       (Some "Colors:Window", "ForegroundNormal", WindowText) ].
Proof.
  unfold role_of. destruct sec as [s|].
  2:{ change (None ≫= (section_role_mapping !!.)) with (@None (gmap string ColorRole)).
      change (default ∅ None) with (∅ : gmap string ColorRole).
      rewrite lookup_empty. intros H. discriminate H. }
  change (Some s ≫= (section_role_mapping !!.)) with (section_role_mapping !! s).
  destruct (section_role_mapping !! s) as [m|] eqn:Hs.
  2:{ change (default ∅ None) with (∅ : gmap string ColorRole).
      rewrite lookup_empty. intros H. discriminate H. }
  change (default ∅ (Some m)) with m. intros Hk.
  unfold section_role_mapping in Hs. apply elem_of_list_to_map_2 in Hs.
  repeat (apply elem_of_cons in Hs; destruct Hs as [Hs | Hs]);
    try (apply elem_of_nil in Hs; contradiction);
    injection Hs as -> ->;
    repeat (apply lookup_insert_Some in Hk; destruct Hk as [[<- <-] | [_ Hk]]);
    try (rewrite lookup_empty in Hk; discriminate Hk);
    simpl; auto 20.
Qed.

(** X12: no two entries of the mapping stand for the same role: a role
    is set by one key of one section only. *)
Theorem X12_one_key_per_role (sec sec' : option string) (key key' : string)
    (role : ColorRole) :
  role_of sec key = Some role ->
  role_of sec' key' = Some role ->
  sec = sec' /\ key = key'.
Proof.
  intros H1 H2. apply role_of_cases in H1. apply role_of_cases in H2.
  simpl in H1, H2.
  repeat (destruct H1 as [H1 | H1]); try contradiction;
    injection H1 as <- <- <-;
    repeat (destruct H2 as [H2 | H2]); try contradiction;
    first [ injection H2 as <- <- Hr; discriminate Hr
          | injection H2 as <- <-; split; reflexivity ].
Qed.

Lemma X12_one_key_per_role_witness :
  Some "Colors:View" = Some "Colors:View" /\ "ForegroundLink" = "ForegroundLink".
Proof.
  apply (X12_one_key_per_role (Some "Colors:View") (Some "Colors:View")
           "ForegroundLink" "ForegroundLink" Link); reflexivity.
Defined.

(** ** Message boxes *)

Lemma spaces_length (n : nat) : String.length (spaces n) = n.
Proof. induction n as [|n IH]; simpl; congruence. Qed.

Lemma all_spaces_spaces (n : nat) : all_spaces (spaces n) = true.
Proof. induction n as [|n IH]; simpl; [reflexivity | exact IH]. Qed.

Lemma length_app (s t : string) :
  String.length (s ++ t)%string = (String.length s + String.length t)%nat.
Proof.
  induction s as [|c s IH]; [reflexivity |].
  change (S (String.length (s ++ t)%string)
          = S (String.length s + String.length t)%nat).
  rewrite IH. reflexivity.
Qed.

Lemma ljust_length (s : string) (width : nat) :
  String.length (ljust s width) = Nat.max (String.length s) width.
Proof. unfold ljust. rewrite length_app, spaces_length. lia. Qed.

(** X13: the four message boxes show the message followed by spaces
    only, as many as bring it to 50 characters and none when it has 50
    or more; the title is the one given. *)
Theorem X13_message_is_padded (title msg : string)
    (buttons : list QMessageBox.StandardButton) :
  Forall (fun b =>
            QMessageBox.title b = title
            /\ String.length (QMessageBox.text b)
               = Nat.max (String.length msg) MIN_MSG_LENGTH
            /\ exists pad, QMessageBox.text b = (msg ++ pad)%string
                           /\ all_spaces pad = true)
         [critical_box title msg; warning_box title msg; info_box title msg;
          question_box title msg buttons].
Proof.
  repeat constructor; simpl; try apply ljust_length;
    (eexists; split; [reflexivity | apply all_spaces_spaces]).
Qed.

(** ** Reporting exceptions *)

Lemma dialogs_app (a b : list event) :
  dialogs (a ++ b)%list = (dialogs a + dialogs b)%nat.
Proof.
  induction a as [|e a IH]; simpl; [reflexivity |].
  destruct e; simpl; congruence.
Qed.

(** X14: [show_exception] runs the error dialog at most once, as the
    last thing it does, with the parent, title and message given. It
    does not run it exactly when it collects the exception and that is
    a [KeyboardInterrupt]: then the last thing it does is to log the
    warning. *)
Theorem X14_dialog_is_run_last (sys_exc_info : exc_info)
    (parent : option string) (title msg : string) (bundle : error_bundle)
    (collect_exception : bool) :
  let trace :=
    show_exception sys_exc_info parent title msg bundle collect_exception in
  if collect_exception && is_KeyboardInterrupt (collected sys_exc_info bundle)
  then dialogs trace = O
       /\ exists log,
            trace = (log ++ [LogWarning "User interrupted the process."])%list
  else exists log,
         trace = (log ++ [ErrorDialogExec parent title msg])%list
         /\ dialogs log = O.
Proof.
  unfold show_exception. destruct collect_exception; simpl.
  - destruct bundle as [|info|info|text]; simpl;
      match goal with
      | |- context [is_KeyboardInterrupt ?i] =>
          destruct (is_KeyboardInterrupt i)
      end; simpl;
      try (split; [reflexivity |]);
      match goal with
      | |- exists log, [_] = _ => exists []
      | |- exists log, [?a; _] = _ => exists [a]
      | |- exists log, [_] = _ /\ _ => exists []
      | |- exists log, [?a; _] = _ /\ _ => exists [a]
      | |- exists log, [?a; ?b; _] = _ /\ _ => exists [a; b]
      end; try split; reflexivity.
  - exists []. split; reflexivity.
Qed.

(** X15: [show_exception] logs a critical message only when it
    collects the exception, with the message given and the exception of
    the bundle, a tuple or a worker error, if there is one, and the
    exception being handled otherwise; never for a
    [KeyboardInterrupt]. *)
Theorem X15_critical_log_carries_the_bundle (sys_exc_info : exc_info)
    (parent : option string) (title msg : string) (bundle : error_bundle)
    (collect_exception : bool) (m : string) (e : exc_info) :
  In (LogCritical m e)
     (show_exception sys_exc_info parent title msg bundle collect_exception)
  <-> collect_exception = true
      /\ m = msg
      /\ e = collected sys_exc_info bundle
      /\ is_KeyboardInterrupt e = false.
Proof.
  unfold show_exception. split.
  - destruct collect_exception.
    + destruct bundle as [|info|info|text]; simpl;
        match goal with
        | |- context [is_KeyboardInterrupt ?i] =>
            destruct (is_KeyboardInterrupt i) eqn:HK
        end; simpl; intros H;
        repeat (destruct H as [H | H]); try contradiction;
        try discriminate H;
        injection H as <- <-; auto.
    + simpl. intros [H | []]. discriminate H.
  - intros (-> & -> & -> & HK).
    destruct bundle as [|info|info|text]; simpl in *; rewrite HK; simpl; auto.
Qed.

Lemma X15_critical_log_carries_the_bundle_witness :
  In (LogCritical "Failed" (ExcInfo (Some (ExceptionClass "OSError")) "e" "tb"))
     (show_exception (ExcInfo (Some KeyboardInterrupt) "k" "tb0") None
        "Error" "Failed"
        (WorkerErrorBundle (ExcInfo (Some (ExceptionClass "OSError")) "e" "tb"))
        true).
Proof.
  apply (proj2 (X15_critical_log_carries_the_bundle
                  (ExcInfo (Some KeyboardInterrupt) "k" "tb0") None
                  "Error" "Failed"
                  (WorkerErrorBundle
                     (ExcInfo (Some (ExceptionClass "OSError")) "e" "tb"))
                  true "Failed"
                  (ExcInfo (Some (ExceptionClass "OSError")) "e" "tb"))).
  repeat split; reflexivity.
Defined.

(** ** Opening a file *)

(** X16: when opening the file raises an exception whose class derives
    from [Exception], [open_file] does not raise: it logs the exception
    and runs the error dialog, once. The dialog is never skipped, since
    [KeyboardInterrupt] does not derive from [Exception]. *)
Theorem X16_open_file_reports_exceptions
    (openUrl : string -> option (exception_class * string * string))
    (path : string) (c : exception_class) (value traceback : string) :
  openUrl path = Some (c, value, traceback) ->
  derives_Exception c = true ->
  open_file openUrl path
  = ([LogDebug ("Opening file " ++ path);
      LogCritical "Failed to open file." (ExcInfo (Some c) value traceback);
      ErrorDialogExec None "File Error" "Failed to open file."],
     None).
Proof.
  intros Hopen Hc. unfold open_file. rewrite Hopen, Hc.
  destruct c as [| name | name]; try discriminate Hc. reflexivity.
Qed.

Lemma X16_open_file_reports_exceptions_witness :
  dialogs (fst (open_file (fun _ => Some (ExceptionClass "OSError", "e", "tb"))
                          "/tmp/a.txt")) = 1%nat.
Proof.
  rewrite (X16_open_file_reports_exceptions
             (fun _ => Some (ExceptionClass "OSError", "e", "tb"))
             "/tmp/a.txt" (ExceptionClass "OSError") "e" "tb"
             eq_refl eq_refl).
  reflexivity.
Defined.

(** X17: an exception that [open_file] lets through is one that
    opening the file raised and whose class does not derive from
    [Exception]; nothing is shown or logged for it beyond the debug
    line. *)
Theorem X17_open_file_lets_through_the_rest
    (openUrl : string -> option (exception_class * string * string))
    (path : string) (trace : list event)
    (raised : exception_class * string * string) :
  open_file openUrl path = (trace, Some raised) ->
  openUrl path = Some raised
  /\ derives_Exception (fst (fst raised)) = false
  /\ trace = [LogDebug ("Opening file " ++ path)].
Proof.
  unfold open_file.
  destruct (openUrl path) as [[[c value] traceback]|]; [| intros H; discriminate H].
  destruct (derives_Exception c) eqn:Hc; intros H; [discriminate H |].
  injection H as <- <-. auto.
Qed.

Lemma X17_open_file_lets_through_the_rest_witness :
  derives_Exception (fst (fst (KeyboardInterrupt, "", "tb"))) = false.
Proof.
  apply (X17_open_file_lets_through_the_rest
           (fun _ => Some (KeyboardInterrupt, "", "tb")) "/tmp/a.txt"
           [LogDebug "Opening file /tmp/a.txt"] (KeyboardInterrupt, "", "tb")
           eq_refl).
Defined.

(** ** Custom icons *)

Section CustomIconProperties.

Variable Path : Type.
Variable joinpath : Path -> string -> Path.
Variable is_file : Path -> bool.
Variable path_str : Path -> string.
Variable custom_icons : Path.

Lemma first_icon_file_Some (dir : Path) (icon_name : string)
    (extensions : list string) (p : Path) :
  first_icon_file Path joinpath is_file dir icon_name extensions = Some p ->
  is_file p = true
  /\ exists pre extension post,
       extensions = (pre ++ extension :: post)%list
       /\ p = joinpath dir (icon_name ++ extension)%string
       /\ Forall (fun e => is_file (joinpath dir (icon_name ++ e)%string) = false)
                 pre.
Proof.
  induction extensions as [|e rest IH]; simpl; [intros H; discriminate H |].
  destruct (is_file (joinpath dir (icon_name ++ e)%string)) eqn:He.
  - intros [= <-]. split; [exact He |].
    exists [], e, rest. auto.
  - intros H. destruct (IH H) as (Hp & pre & ext & post & -> & -> & Hpre).
    split; [exact Hp |].
    exists (e :: pre), ext, post. auto.
Qed.

Lemma first_icon_file_None (dir : Path) (icon_name : string)
    (extensions : list string) :
  first_icon_file Path joinpath is_file dir icon_name extensions = None
  <-> Forall (fun e => is_file (joinpath dir (icon_name ++ e)%string) = false)
             extensions.
Proof.
  induction extensions as [|e rest IH]; simpl.
  - split; [constructor | reflexivity].
  - destruct (is_file (joinpath dir (icon_name ++ e)%string)) eqn:He.
    + split; [intros H; discriminate H |].
      intros H. apply Forall_cons_1 in H. destruct H as [H _]. congruence.
    + rewrite IH. split; [intros H; constructor; assumption |].
      intros H. apply Forall_cons_1 in H. tauto.
Qed.

(** X18: the path that [custom_icon_path] returns is a file that
    exists: the first one among the icon name as it is, with [.svg] and
    with [.png], in this order, in the directory of the theme. *)
Theorem X18_icon_path_is_the_first_file (icon_name theme : string) (p : Path) :
  custom_icon_path Path joinpath is_file path_str custom_icons icon_name theme
  = IconPath p ->
  is_file p = true
  /\ exists pre extension post,
       [""; ".svg"; ".png"] = (pre ++ extension :: post)%list
       /\ p = joinpath (custom_icon_dir Path joinpath custom_icons theme)
                       (icon_name ++ extension)%string
       /\ Forall (fun e =>
                    is_file (joinpath
                               (custom_icon_dir Path joinpath custom_icons theme)
                               (icon_name ++ e)%string) = false) pre.
Proof.
  unfold custom_icon_path.
  destruct (first_icon_file _ _ _ _ _ _) as [q|] eqn:Hq; [| intros H; discriminate H].
  intros [= <-]. exact (first_icon_file_Some _ _ _ _ Hq).
Qed.

(** X19: [custom_icon_path] raises [FileNotFoundError] exactly when
    none of the three candidates is a file. *)
Theorem X19_icon_path_raises_iff_no_file (icon_name theme : string) :
  (exists what,
     custom_icon_path Path joinpath is_file path_str custom_icons icon_name theme
     = RaiseFileNotFoundError what)
  <-> Forall (fun e =>
                is_file (joinpath
                           (custom_icon_dir Path joinpath custom_icons theme)
                           (icon_name ++ e)%string) = false)
             [""; ".svg"; ".png"].
Proof.
  rewrite <- first_icon_file_None. unfold custom_icon_path, icon_extensions.
  destruct (first_icon_file _ _ _ _ _ _) as [q|].
  - split; [intros [what H]; discriminate H | intros H; discriminate H].
  - split; [reflexivity | eauto].
Qed.

(** X20: [load_custom_icon] does not raise. It returns the icon of a
    file that exists and logs nothing, or, when none of the three
    candidates is a file, the null icon, after logging one error. *)
Theorem X20_load_custom_icon_null_iff_no_file (icon_name theme : string) :
  let dir := custom_icon_dir Path joinpath custom_icons theme in
  let missing :=
    forallb (fun e => negb (is_file (joinpath dir (icon_name ++ e)%string)))
            [""; ".svg"; ".png"] in
  let '(icon, log) :=
    load_custom_icon Path joinpath is_file path_str custom_icons
                     icon_name theme in
  if missing
  then icon = QIcon_null /\ exists what, log = [LogError what]
  else log = []
       /\ exists p, icon = QIcon_file (path_str p) /\ is_file p = true.
Proof.
  unfold load_custom_icon, custom_icon_path, icon_extensions.
  simpl.
  set (dir := custom_icon_dir Path joinpath custom_icons theme).
  destruct (is_file (joinpath dir (icon_name ++ "")%string)) eqn:H1; simpl;
    [eauto |].
  destruct (is_file (joinpath dir (icon_name ++ ".svg")%string)) eqn:H2; simpl;
    [eauto |].
  destruct (is_file (joinpath dir (icon_name ++ ".png")%string)) eqn:H3; simpl;
    eauto.
Qed.

End CustomIconProperties.

Lemma X18_icon_path_is_the_first_file_witness :
  sample_is_file ["icons"; "dark"; "undo.svg"] = true.
Proof.
  apply (X18_icon_path_is_the_first_file
           (list string) sample_joinpath sample_is_file sample_path_str
           ["icons"] "undo" "dark" ["icons"; "dark"; "undo.svg"]).
  reflexivity.
Defined.

Lemma X19_icon_path_raises_iff_no_file_witness :
  exists what,
    custom_icon_path (list string) sample_joinpath sample_is_file
      sample_path_str ["icons"] "redo" "dark"
    = RaiseFileNotFoundError what.
Proof.
  apply (proj2 (X19_icon_path_raises_iff_no_file
                  (list string) sample_joinpath sample_is_file sample_path_str
                  ["icons"] "redo" "dark")).
  repeat constructor.
Defined.

(** ** The contrast amount *)




Lemma effect_channel_not_finite (s e : Z) (a : Py.float) :
  finite_or_zero a = false -> exists x, effect_channel s e a = Raise x.
Proof.
  intros Ha. unfold effect_channel, effect_value.
  destruct amount_literals as (_ & _ & ->). unfold amount_1.
  destruct a as [sa | sa | | sa ma ea]; try discriminate Ha;
    destruct (Py.float_of_int s) as [ss | ss | | ss ms es];
    destruct (Py.float_of_int e) as [se | se | | se me ee];
    simpl;
    repeat match goal with
           | |- context [xorb ?b ?c] => destruct b; destruct c; simpl
           | |- context [negb ?b] => destruct b; simpl
           | |- context [Bool.eqb ?b ?c] => destruct b; destruct c; simpl
           end;
    eauto.
Qed.

Lemma apply_color_effect_not_finite (source effect_base : QColor)
    (a : Py.float) :
  finite_or_zero a = false ->
  exists x, apply_color_effect source effect_base a = Raise x.
Proof.
  intros Ha. unfold apply_color_effect.
  destruct (effect_channel_not_finite (red source) (red effect_base) a Ha)
    as [x ->].
  eauto.
Qed.

Lemma role_line_amount (st st1 : locals) (l : string) :
  role_line st l = Ok (Continue st1) ->
  disabled_contrast_amount st1 = disabled_contrast_amount st.
Proof.
  intros Hl. apply role_line_inv in Hl.
  destruct Hl as [[[= ->] _] | (key & value & role & _ & _ & Hr & _ & Ha)];
    [reflexivity |].
  apply role_assign_inv in Ha. rewrite Hr in Ha.
  destruct Ha as (r & g & b & c & d & _ & _ & _ & [= ->]). reflexivity.
Qed.

Lemma role_pass_not_finite (lines : list string) (st : locals) :
  finite_or_zero (disabled_contrast_amount st) = false ->
  assigned_roles lines (section st) <> [] ->
  exists e, role_pass lines st = Raise e.
Proof.
  unfold role_pass. revert st.
  induction lines as [|l lines IH]; intros st Ha Hroles; simpl in *;
    [contradiction |].
  destruct (role_line st l) as [f|e] eqn:Hl; [| eauto].
  destruct (role_line_continue _ _ _ Hl) as (st1 & -> & Hsec).
  pose proof (role_line_amount _ _ _ Hl) as Hamount.
  apply role_line_inv in Hl.
  destruct Hl as [[_ Hnone] | (key & value & role & _ & _ & Hr & _ & Hassign)].
  - rewrite Hnone in Hroles. apply IH; [congruence |].
    rewrite Hsec. exact Hroles.
  - exfalso. apply role_assign_inv in Hassign. rewrite Hr in Hassign.
    destruct Hassign as (r & g & b & c & d & _ & _ & Hd & _).
    destruct (apply_color_effect_not_finite c (disabled_color st) _ Ha)
      as [x Hx].
    rewrite Hx in Hd. discriminate Hd.
Qed.

(** X22: when the first loop ends with a contrast amount that is not
    a finite number ([nan], [inf]), every blend fails, so
    [load_color_palette] raises as soon as the theme sets a role. *)
Theorem X22_non_finite_amount_raises
    (read_theme : string -> option string) (new_palette : QPalette)
    (lighter darker : QColor -> Z -> QColor)
    (theme content : string) (st1 : locals) :
  read_theme theme = Some content ->
  disabled_pass (Py.split "010" content) (initial_locals new_palette) = Ok st1 ->
  finite_or_zero (disabled_contrast_amount st1) = false ->
  assigned_roles (Py.split "010" content) None <> [] ->
  exists e,
    load_color_palette read_theme new_palette lighter darker theme = Raise e.
Proof.
  intros Hread H1 Ha Hroles.
  unfold load_color_palette. rewrite Hread.
  apply bind_raises. intros st Hparse. exfalso.
  unfold parse_theme in Hparse. rewrite H1, bind_Ok in Hparse.
  pose proof (disabled_pass_section _ _ _ H1) as Hsec. simpl in Hsec.
  rewrite <- Hsec in Hroles.
  destruct (role_pass_not_finite _ _ Ha Hroles) as [e He].
  rewrite He in Hparse. discriminate Hparse.
Qed.

Lemma X22_non_finite_amount_raises_witness :
  exists e,
    load_color_palette (fun _ => Some nan_theme) empty_palette
      sample_lighter sample_darker "nan.colors" = Raise e.
Proof.
  pose (st1 := match disabled_pass (Py.split "010" nan_theme)
                       (initial_locals empty_palette) with
               | Ok st => st
               | Raise _ => initial_locals empty_palette
               end).
  assert (H1 : disabled_pass (Py.split "010" nan_theme)
                 (initial_locals empty_palette) = Ok st1)
    by (vm_compute; reflexivity).
  assert (Ha : finite_or_zero (disabled_contrast_amount st1) = false)
    by (vm_compute; reflexivity).
  assert (Hroles : assigned_roles (Py.split "010" nan_theme) None = [Button])
    by (vm_compute; reflexivity).
  apply (X22_non_finite_amount_raises
           (fun _ => Some nan_theme) empty_palette sample_lighter
           sample_darker "nan.colors" nan_theme st1 eq_refl H1 Ha).
  rewrite Hroles. intros H. discriminate H.
Defined.
